(** * nstats: the sampling and rate engine of the XDP statistics dashboard

    A shallow embedding of [internal/stats/stats.go].  Unsigned 64-bit
    counters are integers in [Z] with the wrap-around of Go's arithmetic
    written out; [float64] values are IEEE-754 binary64 numbers in the
    Standard Library's [spec_float] (precision 53, exponent bound 1024),
    so that every rate and every rendered cell can be evaluated; the
    in-place updates of the Go code are explicit state passing. *)

From Stdlib Require Import ZArith String Ascii Strings.Byte Lia Bool.
From Stdlib Require Import SpecFloat DecimalString.
From Stdlib Require Import QArith Qabs Qpower Lqa.
From stdpp Require Import base list numbers strings.

Open Scope Z_scope.

(** ** Errors and outcomes *)

(** The [error] values the package can return.  [io_EOF] and
    [io_ErrUnexpectedEOF] come from [binary.Read], [lookup_error] stands
    for whatever the map lookup system call reports, [wrap_error] is
    [fmt.Errorf("...: %w", err)]. *)
Inductive error : Type :=
| io_EOF
| io_ErrUnexpectedEOF
| lookup_error (msg : string)
| wrap_error (msg : string) (cause : error).

(** A Go computation that either yields a value or panics. *)
Inductive outcome (A : Type) : Type :=
| Done (a : A)
| Panic (msg : string).
Arguments Done {A} a.
Arguments Panic {A} msg.

#[global] Instance outcome_ret : MRet outcome := fun A a => Done a.
#[global] Instance outcome_bind : MBind outcome := fun A B k o =>
  match o with
  | Done a => k a
  | Panic msg => Panic msg
  end.

(** ** Machine integers *)

Definition uint64_mod : Z := 2 ^ 64.
Definition maxInt64 : Z := 2 ^ 63 - 1.
Definition minInt64 : Z := - 2 ^ 63.

(** The value kept by a [uint64] after an arithmetic operation. *)
Definition wrap64 (z : Z) : Z := z mod uint64_mod.
Definition add64 (a b : Z) : Z := wrap64 (a + b).
Definition sub64 (a b : Z) : Z := wrap64 (a - b).

Definition is_uint64 (z : Z) : Prop := 0 <= z < uint64_mod.

(** ** Decoding one per-CPU record *)

Record datarec : Type := Datarec {
  rxPackets : Z;  (* packets received *)
  rxBytes : Z     (* bytes received *)
}.

Definition zero_datarec : datarec := Datarec 0 0.

Definition byte_val (b : list byte) (i : nat) : Z :=
  Z.of_N (Byte.to_N (nth i b x00)).

(** [binary.LittleEndian.Uint64] on a slice of (at least) 8 bytes. *)
Definition LittleEndian_Uint64 (b : list byte) : Z :=
  Z.lor (byte_val b 0)
 (Z.lor (Z.shiftl (byte_val b 1) 8)
 (Z.lor (Z.shiftl (byte_val b 2) 16)
 (Z.lor (Z.shiftl (byte_val b 3) 24)
 (Z.lor (Z.shiftl (byte_val b 4) 32)
 (Z.lor (Z.shiftl (byte_val b 5) 40)
 (Z.lor (Z.shiftl (byte_val b 6) 48)
        (Z.shiftl (byte_val b 7) 56))))))).

(** [io.ReadFull] on a [bytes.Buffer] whose unread part is [r]: the
    remaining buffer and either the [n] bytes read or the error.  A short
    buffer is drained; it gives [io.EOF] when nothing was left and
    [io.ErrUnexpectedEOF] otherwise. *)
Definition io_ReadFull (r : list byte) (n : nat) : list byte * (error + list byte) :=
  if decide (n <= length r)%nat then (drop n r, inr (take n r))
  else match r with
       | [] => ([], inl io_EOF)
       | _ :: _ => ([], inl io_ErrUnexpectedEOF)
       end.

(** [binary.Read(r, binary.LittleEndian, &x)] for [x] of type [uint64]. *)
Definition binary_Read_uint64 (r : list byte) : list byte * (error + Z) :=
  match io_ReadFull r 8 with
  | (r', inl err) => (r', inl err)
  | (r', inr bs) => (r', inr (LittleEndian_Uint64 bs))
  end.

(** [datarec.UnmarshalBinary] (pointer receiver): the receiver after the call and the
    returned error ([None] is [nil]).  The first field is already written
    when the second read fails. *)
Definition UnmarshalBinary (d : datarec) (p : list byte) : datarec * option error :=
  let r := p in
  match binary_Read_uint64 r with
  | (_, inl err) => (d, Some err)
  | (r, inr v) =>
      let d := Datarec v (rxBytes d) in
      match binary_Read_uint64 r with
      | (_, inl err) => (d, Some err)
      | (_, inr v) => (Datarec (rxPackets d) v, None)
      end
  end.

(** ** Snapshots *)

(** A Go array of length 5. *)
Record array5 (A : Type) : Type := Array5 {
  at0 : A; at1 : A; at2 : A; at3 : A; at4 : A
}.
Arguments Array5 {A} _ _ _ _ _.
Arguments at0 {A} _.
Arguments at1 {A} _.
Arguments at2 {A} _.
Arguments at3 {A} _.
Arguments at4 {A} _.

(** [a[i]]; [None] is the run-time panic of an index out of range. *)
Definition index5 {A : Type} (a : array5 A) (i : Z) : option A :=
  match i with
  | 0 => Some (at0 a)
  | 1 => Some (at1 a)
  | 2 => Some (at2 a)
  | 3 => Some (at3 a)
  | 4 => Some (at4 a)
  | _ => None
  end.

(** [a[i] = x]. *)
Definition store5 {A : Type} (a : array5 A) (i : Z) (x : A) : option (array5 A) :=
  match i with
  | 0 => Some (Array5 x (at1 a) (at2 a) (at3 a) (at4 a))
  | 1 => Some (Array5 (at0 a) x (at2 a) (at3 a) (at4 a))
  | 2 => Some (Array5 (at0 a) (at1 a) x (at3 a) (at4 a))
  | 3 => Some (Array5 (at0 a) (at1 a) (at2 a) x (at4 a))
  | 4 => Some (Array5 (at0 a) (at1 a) (at2 a) (at3 a) x)
  | _ => None
  end.

Definition array5_to_list {A : Type} (a : array5 A) : list A :=
  [at0 a; at1 a; at2 a; at3 a; at4 a].

Definition index_panic : string := "index out of range".

(** A [time.Time] is kept as its reading in nanoseconds. *)
Record record : Type := Record_ {
  timestamp : Z;
  total : datarec
}.

Definition zero_record : record := Record_ 0 zero_datarec.

Record StatsRecord : Type := MkStatsRecord {
  Records : array5 record
}.

(** The zero value of [var recv StatsRecord]. *)
Definition zero_StatsRecord : StatsRecord :=
  MkStatsRecord (Array5 zero_record zero_record zero_record zero_record zero_record).

(** ** The counter table and the clock

    The map and the clock live outside the program.  Each call of
    [getMapVal] reads the clock once and the map once; [kernel] gives
    what the [n]-th such call observes: the clock reading, and for the
    looked-up key either the error of the lookup or the raw value of the
    key, one chunk of bytes per CPU. *)
Record kernel : Type := Kernel {
  time_Now : nat -> Z;
  percpu_value : nat -> Z -> error + list (list byte)
}.

(** The library decodes every chunk with [UnmarshalBinary] into a fresh
    element and gives up at the first chunk that fails. *)
Fixpoint unmarshal_percpu (chunks : list (list byte)) : error + list datarec :=
  match chunks with
  | [] => inr []
  | c :: rest =>
      match UnmarshalBinary zero_datarec c with
      | (_, Some err) => inl err
      | (d, None) =>
          match unmarshal_percpu rest with
          | inl err => inl err
          | inr ds => inr (d :: ds)
          end
      end
  end.

(** [m.Lookup(&key, &perCpuValues)] at the [n]-th access. *)
Definition Map_Lookup (K : kernel) (n : nat) (key : Z) : error + list datarec :=
  match percpu_value K n key with
  | inl err => inl err
  | inr chunks => unmarshal_percpu chunks
  end.

(** The loop [for _, d := range perCpuValues] of [getMapVal], from the
    running sum [valueSum]. *)
Definition sum_percpu (valueSum : datarec) (perCpuValues : list datarec) : datarec :=
  fold_left (fun acc d => Datarec (add64 (rxPackets acc) (rxPackets d))
                                  (add64 (rxBytes acc) (rxBytes d)))
            perCpuValues valueSum.

(** [getMapVal key m stat] at access [n]: the record [stat] points to
    after the call, and the returned error.  The timestamp is stored
    before the lookup, so it is kept when the lookup fails. *)
Definition getMapVal (K : kernel) (n : nat) (key : Z) (stat : StatsRecord)
  : outcome (StatsRecord * option error) :=
  match index5 (Records stat) key with
  | None => Panic index_panic
  | Some slot =>
      let slot := Record_ (time_Now K n) (total slot) in
      match store5 (Records stat) key slot with
      | None => Panic index_panic
      | Some recs =>
          let stat := MkStatsRecord recs in
          match Map_Lookup K n key with
          | inl err => Done (stat, Some err)
          | inr perCpuValues =>
              let valueSum := sum_percpu zero_datarec perCpuValues in
              let slot := Record_ (timestamp slot)
                                  (Datarec (rxPackets (total slot)) (rxBytes valueSum)) in
              let slot := Record_ (timestamp slot)
                                  (Datarec (rxPackets valueSum) (rxBytes (total slot))) in
              match store5 recs key slot with
              | None => Panic index_panic
              | Some recs => Done (MkStatsRecord recs, None)
              end
          end
      end
  end.

(** The loop of [collectStats] from [action] on, with [todo] iterations
    left; the access counter advances by one per [getMapVal]. *)
Fixpoint collect_from (K : kernel) (todo : nat) (action : Z) (n : nat) (rec : StatsRecord)
  : outcome (nat * StatsRecord * option error) :=
  match todo with
  | O => Done (n, rec, None)
  | S todo =>
      r ← getMapVal K n action rec;
      match r with
      | (rec, Some err) => Done (S n, rec, Some err)
      | (rec, None) => collect_from K todo (action + 1) (S n) rec
      end
  end.

(** [rec.collectStats(sMap)] started at access [n]: the next access
    number, the record [rec] points to afterwards, and the error. *)
Definition collectStats (K : kernel) (n : nat) (rec : StatsRecord)
  : outcome (nat * StatsRecord * option error) :=
  collect_from K 5 0 n rec.

(** ** float64 and time *)

(** Go's [float64] is IEEE-754 binary64; operations round to nearest,
    ties to even. *)
Definition float64 : Type := spec_float.

Definition f64_of_Z (z : Z) : float64 := binary_normalize 53 1024 z 0 false.
Definition f64_add : float64 -> float64 -> float64 := SFadd 53 1024.
Definition f64_mul : float64 -> float64 -> float64 := SFmul 53 1024.
Definition f64_div : float64 -> float64 -> float64 := SFdiv 53 1024.
Definition f64_ltb : float64 -> float64 -> bool := SFltb.

(** [float64(x)] for [x] of type [uint64] or [int64]. *)
Definition float64_of_int (x : Z) : float64 := f64_of_Z x.

Definition f64_zero : float64 := S754_zero false.
Definition f64_nan : float64 := S754_nan.
Definition f64_pinf : float64 := S754_infinity false.

(** [time.Second], a [Duration] in nanoseconds. *)
Definition Second : Z := 1000000000.

(** [t.Sub(u)]: the difference as an [int64] number of nanoseconds,
    saturated at the largest and smallest [Duration]. *)
Definition Time_Sub (t u : Z) : Z :=
  let d := t - u in
  if d <? minInt64 then minInt64
  else if maxInt64 <? d then maxInt64
  else d.

(** [d.Seconds()]: [float64(sec) + float64(nsec)/1e9] with Go's
    truncated division. *)
Definition Duration_Seconds (d : Z) : float64 :=
  let sec := Z.quot d Second in
  let nsec := Z.rem d Second in
  f64_add (float64_of_int sec) (f64_div (float64_of_int nsec) (f64_of_Z 1000000000)).

(** ** Formatting *)

Definition decimal (z : Z) : string := NilZero.string_of_int (Z.to_int z).

Fixpoint spaces (n : nat) : string :=
  match n with
  | O => EmptyString
  | S n => String " " (spaces n)
  end.

(** Right-justification in a field of [width] characters. *)
Definition pad_left (width : nat) (s : string) : string :=
  (spaces (width - String.length s) ++ s)%string.

(** The integer nearest to [m * 2^e * 10^digits], ties to even. *)
Definition round_scaled (m : positive) (e : Z) (digits : nat) : Z :=
  let num := Zpos m * 10 ^ Z.of_nat digits in
  match e with
  | Zneg p =>
      let den := 2 ^ Zpos p in
      let q := num / den in
      let r := num mod den in
      match 2 * r ?= den with
      | Lt => q
      | Gt => q + 1
      | Eq => if Z.even q then q else q + 1
      end
  | _ => num * 2 ^ e
  end.

(** The digits of [n / 10^digits] in fixed notation. *)
Definition fixed_digits (n : Z) (digits : nat) : string :=
  match digits with
  | O => decimal n
  | S _ =>
      let unit := 10 ^ Z.of_nat digits in
      (decimal (n / unit) ++ "." ++
       match decimal (unit + n mod unit) with
       | String _ frac => frac
       | EmptyString => EmptyString
       end)%string
  end.

(** The verb [%f] with precision [digits], before padding. *)
Definition format_f (digits : nat) (x : float64) : string :=
  match x with
  | S754_nan => "NaN"
  | S754_infinity false => "+Inf"
  | S754_infinity true => "-Inf"
  | S754_zero s =>
      ((if s then "-" else EmptyString) ++ fixed_digits 0 digits)%string
  | S754_finite s m e =>
      ((if s then "-" else EmptyString) ++ fixed_digits (round_scaled m e digits) digits)%string
  end.

(** [fmt.Sprintf("%<width>.<digits>f", x)]. *)
Definition Sprintf_f (width digits : nat) (x : float64) : string :=
  pad_left width (format_f digits x).

(** [fmt.Sprintf("%d", x)] for an unsigned [x]. *)
Definition Sprintf_d (x : Z) : string := decimal x.

(** ** Slot names *)

Definition action2str (act : Z) : outcome string :=
  match act with
  | 0 => Done "XDP_ABORT"%string
  | 1 => Done "XDP_DROP"%string
  | 2 => Done "XDP_PASS"%string
  | 3 => Done "XDP_TX"%string
  | 4 => Done "XDP_REDIRECT"%string
  | _ => Panic "invalid input"
  end.

(** ** Rates *)

Record stats : Type := Stats {
  Packets : string;
  PPs : string;
  Bytes : string;
  BPs : string;
  Period : string
}.

(** The local [kbps] of [calculateSpeed]. *)
Definition kbps_of (bytes period : float64) : float64 :=
  f64_div (f64_div (f64_mul bytes (f64_of_Z 8)) period) (f64_of_Z 1000).

Definition calculateSpeed (bytes period : float64) : string :=
  let kbps := kbps_of bytes period in
  if f64_ltb kbps (f64_of_Z 1000) then
    (Sprintf_f 6 0 kbps ++ " Kbits/s")%string
  else
    let mbps := f64_div kbps (f64_of_Z 1000) in
    (Sprintf_f 6 0 mbps ++ " Mbits/s")%string.

Definition formatBytes (bytes : Z) : string :=
  let kbs := bytes / 1024 in
  if kbs <? 1024 then
    (Sprintf_d kbs ++ " KBs")%string
  else
    let mbs := kbs / 1024 in
    (Sprintf_d mbs ++ " MBs")%string.

(** The locals [period], [pps] and [bytes] of one iteration of
    [calcStats], for the slot records [prev] and [rec]. *)
Definition period_of (prev rec : record) : float64 :=
  Duration_Seconds (Time_Sub (timestamp rec) (timestamp prev)).

Definition pps_of (prev rec : record) : float64 :=
  f64_div (float64_of_int (sub64 (rxPackets (total rec)) (rxPackets (total prev))))
          (period_of prev rec).

Definition bytes_of (prev rec : record) : float64 :=
  float64_of_int (sub64 (rxBytes (total rec)) (rxBytes (total prev))).

(** The body of the loop of [calcStats]. *)
Definition calcStat (prev rec : record) : stats :=
  let period := period_of prev rec in
  let pps := pps_of prev rec in
  let bytes := bytes_of prev rec in
  let speed := calculateSpeed bytes period in
  {| Packets := Sprintf_d (rxPackets (total rec));
     PPs := (Sprintf_f 10 0 pps ++ " pps")%string;
     Bytes := formatBytes (rxBytes (total rec));
     BPs := speed;
     Period := Sprintf_f 0 6 period |}.

(** [calcStats]: the loop over [i = 0 .. 4] fills every element of the
    array of pointers; [None] is the nil pointer. *)
Definition calcStats (prev recv : StatsRecord) : array5 (option stats) :=
  let p := Records prev in
  let r := Records recv in
  Array5 (Some (calcStat (at0 p) (at0 r)))
         (Some (calcStat (at1 p) (at1 r)))
         (Some (calcStat (at2 p) (at2 r)))
         (Some (calcStat (at3 p) (at3 r)))
         (Some (calcStat (at4 p) (at4 r))).

(** ** The table *)

(** Of the table widget only [Rows] matters here. *)
Record Table : Type := MkTable {
  Rows : list (list string)
}.

Definition nil_panic : string := "nil pointer dereference".

(** [rows[r][c] = v]; both indices are checked. *)
Definition set_cell (rows : list (list string)) (r c : nat) (v : string)
  : outcome (list (list string)) :=
  match rows !! r with
  | None => Panic index_panic
  | Some row =>
      if decide (c < length row)%nat
      then Done (<[r := <[c := v]> row]> rows)
      else Panic index_panic
  end.

(** One iteration of the loop of [updateTable]. *)
Definition update_row (i : Z) (s : option stats) (rows : list (list string))
  : outcome (list (list string)) :=
  let r := Z.to_nat (i + 1) in
  name ← action2str i;
  rows ← set_cell rows r 0 name;
  match s with
  | None => Panic nil_panic
  | Some s =>
      rows ← set_cell rows r 1 (Packets s);
      rows ← set_cell rows r 2 (PPs s);
      rows ← set_cell rows r 3 (Bytes s);
      rows ← set_cell rows r 4 (BPs s);
      set_cell rows r 5 (Period s)
  end.

Fixpoint update_rows (i : Z) (ss : list (option stats)) (rows : list (list string))
  : outcome (list (list string)) :=
  match ss with
  | [] => Done rows
  | s :: ss =>
      rows ← update_row i s rows;
      update_rows (i + 1) ss rows
  end.

(** [updateTable stats table]. *)
Definition updateTable (stats : array5 (option stats)) (table : Table) : outcome Table :=
  rows ← update_rows 0 (array5_to_list stats) (Rows table);
  Done (MkTable rows).

(** ** The dashboard loop *)

Definition blank_row : list string :=
  [EmptyString; EmptyString; EmptyString; EmptyString; EmptyString; EmptyString].

(** The table built at the start of [RenderStats]. *)
Definition initial_table : Table :=
  MkTable
    [ ["Action"; "Total Packets"; "Packets Per Sec"; "Total Bytes"; "Speed (Mbps)"; "Period"]%string;
      blank_row; blank_row; blank_row; blank_row; blank_row ].

(** What [select] receives: a tick of the ticker or a terminal event
    with its identifier. *)
Inductive event : Type :=
| Tick
| UiEvent (ID : string).

(** One pass through the [ticker.C] case: the two arguments of the call
    of [calcStats] and the table handed to [ui.Render]. *)
Record frame : Type := Frame {
  frame_prev : StatsRecord;
  frame_recv : StatsRecord;
  frame_table : Table
}.

(** How a run over a finite sequence of events ends: [RenderStats]
    returned, it panicked, or the events are used up and [select]
    waits. *)
Inductive exit : Type :=
| Returned (err : option error)
| Panicked (msg : string)
| Waiting.

Definition collect_error (err : error) : exit :=
  Returned (Some (wrap_error "error collecting stats" err)).

Definition is_quit (ID : string) : bool :=
  (String.eqb ID "q" || String.eqb ID "<C-c>")%string.

(** The [for] loop of [RenderStats], one iteration per event: the
    frames rendered and the way the run ends.  [recv] and [prev] are
    declared inside the loop body, so every iteration starts from their
    zero values; [n] counts the accesses made so far. *)
Fixpoint render_loop (K : kernel) (evs : list event) (n : nat) (table : Table)
  : list frame * exit :=
  let recv := zero_StatsRecord in
  match collectStats K n recv with
  | Panic msg => ([], Panicked msg)
  | Done (_, _, Some err) => ([], collect_error err)
  | Done (n, recv, None) =>
      match evs with
      | [] => ([], Waiting)
      | Tick :: evs =>
          let prev := recv in
          match collectStats K n recv with
          | Panic msg => ([], Panicked msg)
          | Done (_, _, Some err) => ([], collect_error err)
          | Done (n, recv, None) =>
              let stats := calcStats prev recv in
              match updateTable stats table with
              | Panic msg => ([], Panicked msg)
              | Done table =>
                  let '(frames, ex) := render_loop K evs n table in
                  (Frame prev recv table :: frames, ex)
              end
          end
      | UiEvent ID :: evs =>
          if is_quit ID then ([], Returned None)
          else render_loop K evs n table
      end
  end.

(** [RenderStats statsMap]; [ui_Init] is the result of [ui.Init()]. *)
Definition RenderStats (K : kernel) (ui_Init : option error) (evs : list event)
  : list frame * exit :=
  match ui_Init with
  | Some err => ([], Returned (Some err))
  | None => render_loop K evs 0 initial_table
  end.

(** ** Reference notions and sample inputs *)

(** The number a sequence of bytes denotes when read least significant
    byte first. *)
Fixpoint le_value (bs : list byte) : Z :=
  match bs with
  | [] => 0
  | b :: bs => Z.of_N (Byte.to_N b) + 256 * le_value bs
  end.

(** Sixteen bytes: 1 then 2, each as a little-endian 64-bit integer. *)
Definition buffer_1_2 : list byte :=
  [x01; x00; x00; x00; x00; x00; x00; x00; x02; x00; x00; x00; x00; x00; x00; x00].

(** A float that is not zero and not NaN, with sign [s]. *)
Definition signed_nonzero (s : bool) (x : float64) : Prop :=
  match x with
  | S754_finite s' _ _ => s' = s
  | S754_infinity s' => s' = s
  | _ => False
  end.

(** The names of the five classification outcomes, by slot index. *)
Definition slot_names : list string :=
  ["XDP_ABORT"; "XDP_DROP"; "XDP_PASS"; "XDP_TX"; "XDP_REDIRECT"]%string.

(** What [getMapVal] stores in a slot at access [n]: first the
    timestamp alone, then, once the lookup has given [vs], the sums. *)
Definition stamped (K : kernel) (n : nat) (old : record) : record :=
  Record_ (time_Now K n) (total old).

Definition fresh_slot (K : kernel) (n : nat) (vs : list datarec) : record :=
  Record_ (time_Now K n) (sum_percpu zero_datarec vs).

(** A frame whose two snapshots are the complete collections that start
    at access [m] and at access [5 + m]. *)
Definition frame_at (K : kernel) (m : nat) (f : frame) : Prop :=
  collectStats K m zero_StatsRecord = Done (5 + m, frame_prev f, None)%nat /\
  collectStats K (5 + m) zero_StatsRecord = Done (10 + m, frame_recv f, None)%nat.

(** Access numbers not below [lo] and at least 10 apart. *)
Fixpoint spaced (lo : nat) (ms : list nat) : Prop :=
  match ms with
  | [] => True
  | m :: ms => (lo <= m)%nat /\ spaced (10 + m) ms
  end.

Definition table_6x6 (t : Table) : Prop :=
  length (Rows t) = 6%nat /\ Forall (fun row => length row = 6%nat) (Rows t).

(** What the loop keeps true of the rows: six rows of six cells, the
    header row as built at the start. *)
Definition rows_ok (rows : list (list string)) : Prop :=
  length rows = 6%nat /\
  Forall (fun row => length row = 6%nat) rows /\
  rows !! 0%nat = Rows initial_table !! 0%nat.

(** A kernel whose clock advances by one second per access and whose
    counters, the same on every CPU of two, grow with the access
    number. *)
Definition byte_of_nat (n : nat) : byte := default x00 (Byte.of_nat n).

Definition counting_chunk (n : nat) : list byte :=
  [byte_of_nat n; x00; x00; x00; x00; x00; x00; x00;
   x00; byte_of_nat n; x00; x00; x00; x00; x00; x00].

Definition counting_kernel : kernel :=
  {| time_Now := fun n => Z.of_nat n * Second;
     percpu_value := fun n _ => inr [counting_chunk n; counting_chunk n] |}.

(** A kernel in which the key 1 is missing. *)
Definition missing_key_1 : kernel :=
  {| time_Now := fun n => 100 + Z.of_nat n;
     percpu_value := fun _ key =>
       if key =? 1 then inl (lookup_error "key does not exist")
       else inr [buffer_1_2] |}.

(** ** Further reference notions *)

(** The sum of a field over the per-CPU values, as a mathematical
    integer. *)
Fixpoint total_of (field : datarec -> Z) (vs : list datarec) : Z :=
  match vs with
  | [] => 0
  | d :: vs => field d + total_of field vs
  end.

(** The data row [updateTable] writes for slot [i] with statistics [s]. *)
Definition stats_row (name : string) (s : stats) : list string :=
  [name; Packets s; PPs s; Bytes s; BPs s; Period s].

(** The rows of the table after a tick that compared [prev] and [recv]. *)
Definition rendered_rows (prev recv : StatsRecord) : list (list string) :=
  let p := Records prev in
  let r := Records recv in
  [ ["Action"; "Total Packets"; "Packets Per Sec"; "Total Bytes"; "Speed (Mbps)"; "Period"]%string;
    stats_row "XDP_ABORT" (calcStat (at0 p) (at0 r));
    stats_row "XDP_DROP" (calcStat (at1 p) (at1 r));
    stats_row "XDP_PASS" (calcStat (at2 p) (at2 r));
    stats_row "XDP_TX" (calcStat (at3 p) (at3 r));
    stats_row "XDP_REDIRECT" (calcStat (at4 p) (at4 r)) ].

(** The counters of all five slots fit in 64 bits. *)
Definition counters_in_range (rec : StatsRecord) : Prop :=
  Forall (fun slot => is_uint64 (rxPackets (total slot)) /\ is_uint64 (rxBytes (total slot)))
         (array5_to_list (Records rec)).

(** The number of ticks received before the first quit event. *)
Fixpoint ticks_before_quit (evs : list event) : nat :=
  match evs with
  | [] => 0
  | Tick :: evs => S (ticks_before_quit evs)
  | UiEvent ID :: evs => if is_quit ID then 0 else ticks_before_quit evs
  end.

Definition has_quit (evs : list event) : bool :=
  existsb (fun ev => match ev with Tick => false | UiEvent ID => is_quit ID end) evs.

(** A record whose slots all hold stale data. *)
Definition stale_StatsRecord : StatsRecord :=
  let r := Record_ 9 (Datarec 9 9) in MkStatsRecord (Array5 r r r r r).

(** A float that is not NaN and carries the sign [s]; zero is allowed. *)
Definition signed_or_zero (s : bool) (x : float64) : Prop :=
  match x with
  | S754_zero s' => s' = s
  | S754_finite s' _ e => s' = s /\ -1074 <= e
  | S754_infinity s' => s' = s
  | S754_nan => False
  end.

(** Sign tests on a [float64]: strictly positive (finite or +Inf), and
    not negative (+0 included); NaN and -0 pass neither. *)
Definition is_positive_float (x : float64) : bool :=
  match x with
  | S754_finite false _ _ | S754_infinity false => true
  | _ => false
  end.

Definition is_nonnegative_float (x : float64) : bool :=
  match x with
  | S754_zero false | S754_finite false _ _ | S754_infinity false => true
  | _ => false
  end.

(** ** Rounding *)

(** The rational number a finite float64 denotes; zero for the others. *)
Definition float_value (x : float64) : Q :=
  match x with
  | S754_finite s m e => (inject_Z (cond_Zopp s (Zpos m)) * 2 ^ e)%Q
  | _ => 0%Q
  end.

(** One rounding changes a positive number by a factor of at most
    2^52 / (2^52 - 1). *)
Definition rounding_factor : Q := (4503599627370496 # 4503599627370495)%Q.

(** Two positive numbers within a factor [c] of each other. *)
Definition near (c x y : Q) : Prop := (x <= y * c /\ y <= x * c)%Q.

(** A positive float64 with a full 53-bit mantissa and an exponent
    between [lo] and [hi]. *)
Definition normal_float (lo hi : Z) (x : float64) : Prop :=
  exists m e, x = S754_finite false m e /\ 2 ^ 52 <= Zpos m < 2 ^ 53 /\ lo <= e <= hi.

(** A float that is [v] rounded once: normal, positive, and near [v]. *)
Definition rounded (lo hi : Z) (x : float64) (v : Q) : Prop :=
  normal_float lo hi x /\ near rounding_factor (float_value x) v.

(** The rate asked for: [d] packets over [ns] nanoseconds, in packets
    per second. *)
Definition exact_rate (d ns : Z) : Q := (inject_Z d / (inject_Z ns / 1000000000))%Q.

(** The tolerance of a float64 computation: a relative error of 2^-49. *)
Definition float_tolerance : Q := (1 # 562949953421312)%Q.

(** Neither NaN nor an infinity. *)
Definition is_finite_float (x : float64) : bool :=
  match x with
  | S754_zero _ | S754_finite _ _ _ => true
  | _ => false
  end.

(** The nanoseconds between two clock readings as [Time.Sub] reports
    them when the second is the later one: the difference, capped at
    the largest [Duration]. *)
Definition elapsed (prev rec : record) : Z :=
  Z.min (timestamp rec - timestamp prev) maxInt64.

(** * Properties *)

(** ** Decoding *)

Lemma byte_range (b : byte) : 0 <= Z.of_N (Byte.to_N b) < 256.
Proof. pose proof (to_N_bounded b). lia. Qed.

Lemma le_value_range (bs : list byte) : 0 <= le_value bs < 256 ^ Z.of_nat (length bs).
Proof.
  induction bs as [|b bs IH]; [simpl; lia|].
  cbn [le_value length]. rewrite Nat2Z.inj_succ, Z.pow_succ_r by lia.
  pose proof (byte_range b). lia.
Qed.

Lemma lor_disjoint (a rest n k : Z) :
  0 <= n -> 0 <= a < 2 ^ n -> rest = k * 2 ^ n -> Z.lor a rest = a + rest.
Proof.
  intros Hn Ha ->. symmetry. apply Z.add_nocarry_lor.
  apply Z.bits_inj'. intros i Hi.
  rewrite Z.land_spec, Z.bits_0.
  destruct (Z.lt_ge_cases i n) as [Hlt|Hge].
  - rewrite Z.mul_pow2_bits_low by lia. apply andb_false_r.
  - destruct (Z.eq_dec a 0) as [->|Hne]; [now rewrite Z.bits_0|].
    rewrite (Z.bits_above_log2 a i); [reflexivity|lia|].
    apply Z.log2_lt_pow2; [lia|].
    apply Z.lt_le_trans with (2 ^ n); [lia|].
    apply Z.pow_le_mono_r; lia.
Qed.

Lemma LittleEndian_Uint64_le_value (bs : list byte) :
  length bs = 8%nat -> LittleEndian_Uint64 bs = le_value bs.
Proof.
  intros Hlen.
  destruct bs as [|b0 [|b1 [|b2 [|b3 [|b4 [|b5 [|b6 [|b7 [|b8 bs]]]]]]]]];
    try discriminate Hlen.
  unfold LittleEndian_Uint64, byte_val. cbn [nth le_value].
  rewrite !Z.shiftl_mul_pow2 by lia.
  pose proof (byte_range b0). pose proof (byte_range b1).
  pose proof (byte_range b2). pose proof (byte_range b3).
  pose proof (byte_range b4). pose proof (byte_range b5).
  pose proof (byte_range b6). pose proof (byte_range b7).
  set (v0 := Z.of_N (Byte.to_N b0)) in *. set (v1 := Z.of_N (Byte.to_N b1)) in *.
  set (v2 := Z.of_N (Byte.to_N b2)) in *. set (v3 := Z.of_N (Byte.to_N b3)) in *.
  set (v4 := Z.of_N (Byte.to_N b4)) in *. set (v5 := Z.of_N (Byte.to_N b5)) in *.
  set (v6 := Z.of_N (Byte.to_N b6)) in *. set (v7 := Z.of_N (Byte.to_N b7)) in *.
  clearbody v0 v1 v2 v3 v4 v5 v6 v7.
  rewrite (lor_disjoint (v6 * 2 ^ 48) _ 56 v7) by lia.
  rewrite (lor_disjoint (v5 * 2 ^ 40) _ 48 (v6 + v7 * 2 ^ 8)) by lia.
  rewrite (lor_disjoint (v4 * 2 ^ 32) _ 40 (v5 + v6 * 2 ^ 8 + v7 * 2 ^ 16)) by lia.
  rewrite (lor_disjoint (v3 * 2 ^ 24) _ 32
             (v4 + v5 * 2 ^ 8 + v6 * 2 ^ 16 + v7 * 2 ^ 24)) by lia.
  rewrite (lor_disjoint (v2 * 2 ^ 16) _ 24
             (v3 + v4 * 2 ^ 8 + v5 * 2 ^ 16 + v6 * 2 ^ 24 + v7 * 2 ^ 32)) by lia.
  rewrite (lor_disjoint (v1 * 2 ^ 8) _ 16
             (v2 + v3 * 2 ^ 8 + v4 * 2 ^ 16 + v5 * 2 ^ 24 + v6 * 2 ^ 32 + v7 * 2 ^ 40)) by lia.
  rewrite (lor_disjoint v0 _ 8
             (v1 + v2 * 2 ^ 8 + v3 * 2 ^ 16 + v4 * 2 ^ 24 + v5 * 2 ^ 32 + v6 * 2 ^ 40
              + v7 * 2 ^ 48)) by lia.
  lia.
Qed.

Lemma LittleEndian_Uint64_range (bs : list byte) :
  length bs = 8%nat -> is_uint64 (LittleEndian_Uint64 bs).
Proof.
  intros Hlen. rewrite LittleEndian_Uint64_le_value by assumption.
  pose proof (le_value_range bs) as H. rewrite Hlen in H. exact H.
Qed.

Lemma io_ReadFull_enough (r : list byte) (n : nat) :
  (n <= length r)%nat -> io_ReadFull r n = (drop n r, inr (take n r)).
Proof. intros H. unfold io_ReadFull. now rewrite decide_True. Qed.

Lemma io_ReadFull_short (r : list byte) (n : nat) :
  (length r < n)%nat -> exists err, io_ReadFull r n = ([], inl err).
Proof.
  intros H. unfold io_ReadFull. rewrite decide_False by lia.
  destruct r; eauto.
Qed.

Lemma UnmarshalBinary_enough (d : datarec) (p : list byte) :
  (16 <= length p)%nat ->
  UnmarshalBinary d p =
    (Datarec (LittleEndian_Uint64 (take 8 p)) (LittleEndian_Uint64 (take 8 (drop 8 p))), None).
Proof.
  intros H. unfold UnmarshalBinary, binary_Read_uint64.
  rewrite io_ReadFull_enough by lia.
  rewrite io_ReadFull_enough by (rewrite length_drop; lia).
  reflexivity.
Qed.

Lemma UnmarshalBinary_short (d : datarec) (p : list byte) :
  (length p < 16)%nat -> exists d' err, UnmarshalBinary d p = (d', Some err).
Proof.
  intros H. unfold UnmarshalBinary, binary_Read_uint64.
  destruct (le_lt_dec 8 (length p)) as [H8|H8].
  - rewrite io_ReadFull_enough by lia.
    destruct (io_ReadFull_short (drop 8 p) 8) as [err ->]; [rewrite length_drop; lia|].
    eauto.
  - destruct (io_ReadFull_short p 8) as [err ->]; [lia|]. eauto.
Qed.

(** C7 (as claimed, refuted): a record of 17 bytes is not two 8-byte
    integers and nothing else, yet it is decoded without an error. *)
Lemma UnmarshalBinary_accepts_17_bytes :
  length (buffer_1_2 ++ [xff]) <> 16%nat /\
  UnmarshalBinary zero_datarec (buffer_1_2 ++ [xff]) = (Datarec 1 2, None).
Proof. split; [discriminate | reflexivity]. Qed.

(** C7 (amended): decoding succeeds exactly on the buffers of at least 16
    bytes.  On such a buffer packets is the little-endian value of bytes
    0-7 and bytes that of bytes 8-15, whatever the receiver held, and
    whatever follows the first 16 bytes is ignored.  On every shorter
    buffer it fails with io.EOF or io.ErrUnexpectedEOF.  The 16-byte
    buffer 01 00.. 02 00.. decodes to packets 1, bytes 2, and its first
    15 bytes fail to decode. *)
Theorem UnmarshalBinary_accepts_iff (d : datarec) (p : list byte) :
  (snd (UnmarshalBinary d p) = None <-> (16 <= length p)%nat) /\
  ((16 <= length p)%nat ->
   UnmarshalBinary d p =
     (Datarec (le_value (take 8 p)) (le_value (take 8 (drop 8 p))), None) /\
   (forall rest : list byte, UnmarshalBinary d (take 16 p ++ rest) = UnmarshalBinary d p)) /\
  ((length p < 16)%nat ->
   snd (UnmarshalBinary d p) = Some io_EOF \/
   snd (UnmarshalBinary d p) = Some io_ErrUnexpectedEOF) /\
  UnmarshalBinary d buffer_1_2 = (Datarec 1 2, None) /\
  snd (UnmarshalBinary d (take 15 buffer_1_2)) = Some io_ErrUnexpectedEOF.
Proof.
  split; [|split; [|split; [|split; reflexivity]]].
  - split.
    + intros Hok. destruct (le_lt_dec 16 (length p)) as [?|Hlt]; [assumption|].
      destruct (UnmarshalBinary_short d p Hlt) as (d' & err & Heq).
      rewrite Heq in Hok. discriminate Hok.
    + intros Hlen. now rewrite UnmarshalBinary_enough.
  - intros Hlen.
    assert (Hval : UnmarshalBinary d p =
                   (Datarec (le_value (take 8 p)) (le_value (take 8 (drop 8 p))), None)).
    { rewrite UnmarshalBinary_enough by assumption.
      rewrite !LittleEndian_Uint64_le_value; [reflexivity| |].
      - rewrite length_take, length_drop. lia.
      - rewrite length_take. lia. }
    split; [exact Hval|].
    intros rest.
    rewrite !UnmarshalBinary_enough
      by (rewrite ?length_app, ?length_take; lia).
    assert (H8 : take 8 (take 16 p ++ rest) = take 8 p).
    { rewrite take_app_le by (rewrite length_take; lia).
      rewrite take_take. reflexivity. }
    assert (H16 : take 8 (drop 8 (take 16 p ++ rest)) = take 8 (drop 8 p)).
    { rewrite drop_app_le by (rewrite length_take; lia).
      rewrite take_app_le by (rewrite length_drop, length_take; lia).
      rewrite (take_drop_commute p 8 8).
      rewrite (take_drop_commute (take 16 p) 8 8), take_take. reflexivity. }
    now rewrite H8, H16.
  - intros Hlt. unfold UnmarshalBinary, binary_Read_uint64, io_ReadFull.
    destruct (decide (8 <= length p)%nat) as [H8|H8].
    + rewrite decide_False by (rewrite length_drop; lia).
      destruct (drop 8 p); cbn [snd]; [now left|now right].
    + destruct p; cbn [snd]; [now left|now right].
Qed.

Lemma UnmarshalBinary_accepts_iff_witness :
  UnmarshalBinary zero_datarec (buffer_1_2 ++ [xff]) =
    (Datarec (le_value (take 8 (buffer_1_2 ++ [xff])))
             (le_value (take 8 (drop 8 (buffer_1_2 ++ [xff])))), None) /\
  (snd (UnmarshalBinary zero_datarec (take 9 buffer_1_2)) = Some io_EOF \/
   snd (UnmarshalBinary zero_datarec (take 9 buffer_1_2)) = Some io_ErrUnexpectedEOF).
Proof.
  split.
  - apply (proj1 (proj2 (UnmarshalBinary_accepts_iff zero_datarec (buffer_1_2 ++ [xff])))).
    simpl. lia.
  - apply (proj1 (proj2 (proj2 (UnmarshalBinary_accepts_iff zero_datarec
                                  (take 9 buffer_1_2))))).
    simpl. lia.
Defined.

(** C10: on every buffer of at least 16 bytes decoding succeeds; packets
    is the little-endian value of bytes 0-7 and bytes that of bytes 8-15;
    the result is that of decoding the first 16 bytes alone, whatever the
    receiver held before. *)
Theorem UnmarshalBinary_first_16_bytes (d : datarec) (p : list byte) :
  (16 <= length p)%nat ->
  UnmarshalBinary d p =
    (Datarec (le_value (take 8 p)) (le_value (take 8 (drop 8 p))), None) /\
  (forall d', UnmarshalBinary d' (take 16 p) = UnmarshalBinary d p).
Proof.
  intros Hlen. split.
  - rewrite UnmarshalBinary_enough by assumption.
    rewrite !LittleEndian_Uint64_le_value; [reflexivity| |].
    + rewrite length_take, length_drop. lia.
    + rewrite length_take. lia.
  - intros d'. rewrite !UnmarshalBinary_enough by (rewrite ?length_take; lia).
    rewrite take_take. change (8 `min` 16)%nat with 8%nat.
    rewrite (take_drop_commute p 8 8).
    rewrite (take_drop_commute (take 16 p) 8 8), take_take. reflexivity.
Qed.

Lemma UnmarshalBinary_first_16_bytes_witness :
  UnmarshalBinary zero_datarec (buffer_1_2 ++ [xff; xff]) = (Datarec 1 2, None).
Proof.
  apply (UnmarshalBinary_first_16_bytes zero_datarec (buffer_1_2 ++ [xff; xff])).
  simpl. lia.
Defined.

(** ** Conversion to float64 *)

Lemma digits2_pos_bounds (p : positive) :
  2 ^ (Zpos (digits2_pos p) - 1) <= Zpos p < 2 ^ Zpos (digits2_pos p).
Proof.
  induction p as [p IH|p IH|]; cbn [digits2_pos].
  - rewrite Pos2Z.inj_succ, Z.pow_succ_r by lia.
    replace (Z.succ (Zpos (digits2_pos p)) - 1)
      with (Z.succ (Zpos (digits2_pos p) - 1)) by lia.
    rewrite Z.pow_succ_r by lia. lia.
  - rewrite Pos2Z.inj_succ, Z.pow_succ_r by lia.
    replace (Z.succ (Zpos (digits2_pos p)) - 1)
      with (Z.succ (Zpos (digits2_pos p) - 1)) by lia.
    rewrite Z.pow_succ_r by lia. lia.
  - simpl. lia.
Qed.

Lemma shr_1_halves (mrs : shr_record) :
  0 <= shr_m mrs -> shr_m (shr_1 mrs) = shr_m mrs / 2.
Proof.
  destruct mrs as [m r s]. cbn [shr_m]. intros Hm.
  destruct m as [|[p|p|]|p]; cbn [shr_1 shr_m]; [reflexivity| | |reflexivity|lia].
  - rewrite Pos2Z.inj_xI. apply Z.div_unique with 1; lia.
  - rewrite Pos2Z.inj_xO. apply Z.div_unique with 0; lia.
Qed.

Lemma iter_pos_shr_1 (n : positive) (mrs : shr_record) :
  0 <= shr_m mrs ->
  shr_m (SpecFloat.iter_pos shr_1 n mrs) = shr_m mrs / 2 ^ Zpos n.
Proof.
  revert mrs.
  assert (Hpow : forall k, 0 < 2 ^ Zpos k) by (intros k; apply Z.pow_pos_nonneg; lia).
  assert (Hnn : forall x, 0 <= x -> forall k, 0 <= x / 2 ^ Zpos k).
  { intros x Hx k. apply Z.div_pos; [assumption|apply Hpow]. }
  induction n as [n IH|n IH|]; intros mrs Hm; cbn [SpecFloat.iter_pos].
  - assert (H1 : 0 <= shr_m (shr_1 mrs)).
    { rewrite shr_1_halves by assumption. apply Z.div_pos; lia. }
    rewrite IH; [rewrite IH by assumption | rewrite IH by assumption; now apply Hnn].
    rewrite shr_1_halves by assumption.
    pose proof (Hpow n).
    rewrite !Z.div_div by lia.
    f_equal. replace (Zpos n~1) with (1 + Zpos n + Zpos n) by lia.
    rewrite !Z.pow_add_r by lia. change (2 ^ 1) with 2. ring.
  - rewrite IH; [rewrite IH by assumption | rewrite IH by assumption; now apply Hnn].
    pose proof (Hpow n).
    rewrite Z.div_div by lia.
    f_equal. replace (Zpos n~0) with (Zpos n + Zpos n) by lia.
    rewrite Z.pow_add_r by lia. reflexivity.
  - rewrite shr_1_halves by assumption. reflexivity.
Qed.

(** Shifting a positive mantissa to its canonical exponent keeps it
    positive as long as the exponent is not below the smallest one. *)
Lemma shr_fexp_positive (m e : Z) (l : location) :
  0 < m -> -1074 <= e ->
  0 < shr_m (fst (shr_fexp 53 1024 m e l)) /\ -1074 <= snd (shr_fexp 53 1024 m e l).
Proof.
  intros Hm He. unfold shr_fexp, shr.
  destruct m as [|p|p]; try lia. cbn [Zdigits2].
  pose proof (digits2_pos_bounds p) as Hd.
  assert (Hrec : shr_m (shr_record_of_loc (Zpos p) l) = Zpos p)
    by (destruct l as [|[| |]]; reflexivity).
  destruct (fexp 53 1024 (Zpos (digits2_pos p) + e) - e) as [|n|n] eqn:Hn;
    cbn [fst snd]; rewrite ?Hrec; try (split; lia).
  rewrite iter_pos_shr_1 by (rewrite Hrec; lia). rewrite Hrec.
  unfold fexp, emin in Hn.
  assert (Hlt : Zpos n <= Zpos (digits2_pos p) - 1) by lia.
  split; [|lia].
  apply Z.div_str_pos. split; [apply Z.pow_pos_nonneg; lia|].
  apply Z.le_trans with (2 ^ (Zpos (digits2_pos p) - 1)); [|lia].
  apply Z.pow_le_mono_r; lia.
Qed.

Lemma round_nearest_even_positive (m : Z) (l : location) :
  0 < m -> 0 < round_nearest_even m l.
Proof.
  intros Hm. destruct l as [|[| |]]; cbn [round_nearest_even]; try lia.
  destruct (Z.even m); lia.
Qed.

Lemma binary_round_aux_nonzero (s : bool) (m e : Z) (l : location) :
  0 < m -> -1074 <= e ->
  signed_nonzero s (binary_round_aux 53 1024 s m e l).
Proof.
  intros Hm He. unfold binary_round_aux.
  destruct (shr_fexp_positive m e l Hm He) as [H1 H1e].
  destruct (shr_fexp 53 1024 m e l) as [mrs' e']. cbn [fst snd] in H1, H1e.
  pose proof (round_nearest_even_positive _ (loc_of_shr_record mrs') H1) as H2.
  destruct (shr_fexp_positive _ e' loc_Exact H2 H1e) as [H3 _].
  destruct (shr_fexp 53 1024 _ e' loc_Exact) as [mrs'' e'']. cbn [fst] in H3.
  destruct (shr_m mrs'') as [|q|q]; try lia.
  destruct (e'' <=? 1024 - 53); reflexivity.
Qed.

Lemma shl_align_exponent (p : positive) (e : Z) :
  -1074 <= e ->
  -1074 <= snd (shl_align p e (fexp 53 1024 (Zpos (digits2_pos p) + e))).
Proof.
  intros He. unfold shl_align.
  destruct (fexp 53 1024 (Zpos (digits2_pos p) + e) - e) eqn:Hd; cbn [snd]; try lia.
  unfold fexp, emin. lia.
Qed.

(** Converting a non-zero integer gives a non-zero float of its sign. *)
Lemma f64_of_Z_positive (z : Z) : 0 < z -> signed_nonzero false (f64_of_Z z).
Proof.
  intros Hz. destruct z as [|p|p]; try lia.
  unfold f64_of_Z, binary_normalize, binary_round.
  pose proof (shl_align_exponent p 0 ltac:(lia)) as He.
  destruct (shl_align p 0 _) as [mz ez]. cbn [snd] in He.
  apply binary_round_aux_nonzero; lia.
Qed.

Lemma f64_div_by_zero (x : float64) :
  signed_nonzero false x -> f64_div x f64_zero = f64_pinf.
Proof. destruct x as [| | |s m e]; cbn; intros H; try contradiction; now subst. Qed.

(** ** Machine arithmetic *)

Lemma sub64_no_wrap (a b : Z) :
  is_uint64 a -> is_uint64 b -> b <= a -> sub64 a b = a - b.
Proof.
  unfold is_uint64, sub64, wrap64. intros Ha Hb Hle.
  apply Z.mod_small. lia.
Qed.

Lemma sub64_wrap (a b : Z) :
  is_uint64 a -> is_uint64 b -> a < b -> sub64 a b = a - b + uint64_mod.
Proof.
  unfold is_uint64, sub64, wrap64. intros Ha Hb Hlt.
  symmetry. apply Z.mod_unique with (-1); lia.
Qed.

Lemma Time_Sub_same (t : Z) : Time_Sub t t = 0.
Proof. unfold Time_Sub. rewrite Z.sub_diag. reflexivity. Qed.

Lemma period_of_same (prev rec : record) :
  timestamp rec = timestamp prev -> period_of prev rec = f64_zero.
Proof. intros H. unfold period_of. rewrite H, Time_Sub_same. reflexivity. Qed.

(** ** Rates *)

(** C1 (as claimed, refuted): the packet count goes down from 1 to 0
    over one second; the rate is 2^64 packets per second, not a
    fallback. *)
Lemma counter_reset_gives_huge_rate :
  let prev := Record_ 0 (Datarec 1 0) in
  let rec := Record_ Second (Datarec 0 0) in
  rxPackets (total rec) < rxPackets (total prev) /\
  pps_of prev rec = f64_of_Z (2 ^ 64) /\
  pps_of prev rec <> f64_zero /\
  PPs (calcStat prev rec) = "18446744073709551616 pps"%string.
Proof. vm_compute. repeat split; discriminate. Qed.

(** C1 (amended): when the current packet count is below the previous
    one, the difference is taken in unsigned 64-bit arithmetic and wraps
    to current - previous + 2^64, a number between 1 and 2^64 - 1; the
    packet rate is that number, converted to float64 (a strictly
    positive float), divided by the period; no fallback value is
    substituted. *)
Theorem counter_reset_wraps (prev rec : record) :
  is_uint64 (rxPackets (total prev)) ->
  is_uint64 (rxPackets (total rec)) ->
  rxPackets (total rec) < rxPackets (total prev) ->
  let delta := rxPackets (total rec) - rxPackets (total prev) + 2 ^ 64 in
  0 < delta < 2 ^ 64 /\
  pps_of prev rec = f64_div (f64_of_Z delta) (period_of prev rec) /\
  signed_nonzero false (f64_of_Z delta) /\
  PPs (calcStat prev rec) =
    (Sprintf_f 10 0 (f64_div (f64_of_Z delta) (period_of prev rec)) ++ " pps")%string.
Proof.
  intros Hp Hr Hlt delta.
  assert (Hd : 0 < delta < 2 ^ 64) by (unfold is_uint64, uint64_mod in *; subst delta; lia).
  assert (Hpps : pps_of prev rec = f64_div (f64_of_Z delta) (period_of prev rec)).
  { unfold pps_of, float64_of_int. now rewrite sub64_wrap. }
  split; [exact Hd|]. split; [exact Hpps|]. split.
  - apply f64_of_Z_positive. lia.
  - cbn [calcStat PPs]. now rewrite Hpps.
Qed.

Lemma counter_reset_wraps_witness :
  pps_of (Record_ 0 (Datarec 1 0)) (Record_ Second (Datarec 0 0)) =
    f64_div (f64_of_Z (0 - 1 + 2 ^ 64)) (f64_of_Z 1).
Proof.
  apply (counter_reset_wraps (Record_ 0 (Datarec 1 0)) (Record_ Second (Datarec 0 0)));
    cbn; unfold is_uint64, uint64_mod; lia.
Defined.

(** C2 (as claimed, refuted): two snapshots with the same timestamp and
    the same counters; the period is zero and the packet rate is NaN,
    not zero. *)
Lemma zero_period_gives_NaN :
  let prev := Record_ 5 (Datarec 1 1000) in
  let rec := Record_ 5 (Datarec 1 1000) in
  f64_ltb f64_zero (period_of prev rec) = false /\
  pps_of prev rec = f64_nan /\
  pps_of prev rec <> f64_zero /\
  PPs (calcStat prev rec) = "       NaN pps"%string /\
  BPs (calcStat prev rec) = "   NaN Mbits/s"%string.
Proof. vm_compute. repeat split; discriminate. Qed.

(** C2 (amended): when the two timestamps coincide the period is zero
    and the code still divides by it: the packet rate is NaN if the
    packet counts are equal and +Inf if they differ, and the cell shows
    "NaN pps" or "+Inf pps"; a negative period is divided by as well
    (2 packets over -1 s give -2 pps). *)
Theorem zero_period_rate (prev rec : record) :
  is_uint64 (rxPackets (total prev)) ->
  is_uint64 (rxPackets (total rec)) ->
  timestamp rec = timestamp prev ->
  period_of prev rec = f64_zero /\
  pps_of prev rec =
    (if decide (rxPackets (total rec) = rxPackets (total prev)) then f64_nan else f64_pinf) /\
  PPs (calcStat prev rec) =
    (if decide (rxPackets (total rec) = rxPackets (total prev))
     then "       NaN pps" else "      +Inf pps")%string /\
  (let prev1 := Record_ Second (Datarec 0 0) in
   let rec1 := Record_ 0 (Datarec 2 0) in
   period_of prev1 rec1 = f64_of_Z (-1) /\
   pps_of prev1 rec1 = f64_of_Z (-2) /\
   PPs (calcStat prev1 rec1) = "        -2 pps"%string).
Proof.
  intros Hp Hr Hts.
  pose proof (period_of_same prev rec Hts) as Hper.
  assert (Hpps : pps_of prev rec =
      if decide (rxPackets (total rec) = rxPackets (total prev)) then f64_nan else f64_pinf).
  { unfold pps_of, float64_of_int. rewrite Hper.
    destruct (decide (rxPackets (total rec) = rxPackets (total prev))) as [Heq|Hne].
    - rewrite Heq. unfold sub64, wrap64. rewrite Z.sub_diag. reflexivity.
    - apply f64_div_by_zero, f64_of_Z_positive.
      destruct (Z.lt_ge_cases (rxPackets (total rec)) (rxPackets (total prev))).
      + rewrite sub64_wrap by assumption.
        unfold is_uint64, uint64_mod in *. lia.
      + rewrite sub64_no_wrap by (try assumption; lia). lia. }
  split; [exact Hper|]. split; [exact Hpps|]. split.
  - cbn [calcStat PPs]. rewrite Hpps.
    destruct (decide (rxPackets (total rec) = rxPackets (total prev))); reflexivity.
  - vm_compute. repeat split.
Qed.

Lemma zero_period_rate_witness :
  pps_of (Record_ 7 (Datarec 3 0)) (Record_ 7 (Datarec 8 0)) = f64_pinf.
Proof.
  apply (zero_period_rate (Record_ 7 (Datarec 3 0)) (Record_ 7 (Datarec 8 0)));
    cbn; unfold is_uint64, uint64_mod; try lia; reflexivity.
Defined.

(** ** Unit scaling *)

Lemma formatBytes_cases (bytes : Z) :
  0 <= bytes ->
  formatBytes bytes =
    if bytes <? 1024 * 1024
    then (decimal (bytes / 1024) ++ " KBs")%string
    else (decimal (bytes / (1024 * 1024)) ++ " MBs")%string.
Proof.
  intros Hb. unfold formatBytes, Sprintf_d.
  rewrite Z.div_div by lia.
  destruct (Z.ltb_spec (bytes / 1024) 1024) as [Hlt|Hge];
    destruct (Z.ltb_spec bytes (1024 * 1024)) as [Hlt'|Hge']; try reflexivity.
  - exfalso. assert (1024 <= bytes / 1024) by (apply Z.div_le_lower_bound; lia). lia.
  - exfalso. assert (bytes / 1024 < 1024) by (apply Z.div_lt_upper_bound; lia). lia.
Qed.

(** C5 (as claimed, refuted): 124875 bytes in one second are 999 Kbit/s,
    and the rendered string is not "999 Kbits/s". *)
Lemma calculateSpeed_999_is_padded :
  kbps_of (f64_of_Z 124875) (f64_of_Z 1) = f64_of_Z 999 /\
  calculateSpeed (f64_of_Z 124875) (f64_of_Z 1) <> "999 Kbits/s"%string.
Proof. vm_compute. split; [reflexivity|discriminate]. Qed.

(** C5 (amended): the bit rate is printed right-aligned in a field of 6
    characters: a Kbit/s value of 999 renders as "   999 Kbits/s" and a
    value of 1000 as "     1 Mbits/s" (the switch to Mbit/s is at 1000
    inclusive); a byte total of 1023 renders as "0 KBs", 1024 as "1 KBs"
    and 1024*1024 as "1 MBs", the quotients being truncated: below
    1024*1024 bytes the total is shown as bytes/1024 KBs, from there on
    as bytes/(1024*1024) MBs. *)
Theorem unit_scaling (bytes period : float64) (total_bytes : Z) :
  (kbps_of bytes period = f64_of_Z 999 ->
   calculateSpeed bytes period = "   999 Kbits/s"%string) /\
  (kbps_of bytes period = f64_of_Z 1000 ->
   calculateSpeed bytes period = "     1 Mbits/s"%string) /\
  formatBytes 1023 = "0 KBs"%string /\
  formatBytes 1024 = "1 KBs"%string /\
  formatBytes (1024 * 1024) = "1 MBs"%string /\
  (0 <= total_bytes ->
   formatBytes total_bytes =
     if total_bytes <? 1024 * 1024
     then (decimal (total_bytes / 1024) ++ " KBs")%string
     else (decimal (total_bytes / (1024 * 1024)) ++ " MBs")%string).
Proof.
  split; [|split; [|split; [|split; [|split]]]]; try reflexivity.
  - intros H. unfold calculateSpeed. rewrite H. reflexivity.
  - intros H. unfold calculateSpeed. rewrite H. reflexivity.
  - apply formatBytes_cases.
Qed.

Lemma unit_scaling_witness :
  calculateSpeed (f64_of_Z 124875) (f64_of_Z 1) = "   999 Kbits/s"%string /\
  calculateSpeed (f64_of_Z 125000) (f64_of_Z 1) = "     1 Mbits/s"%string /\
  formatBytes 2047 = "1 KBs"%string.
Proof.
  split; [|split].
  - apply (proj1 (unit_scaling (f64_of_Z 124875) (f64_of_Z 1) 0)). reflexivity.
  - apply (proj1 (proj2 (unit_scaling (f64_of_Z 125000) (f64_of_Z 1) 0))). reflexivity.
  - apply (proj2 (proj2 (proj2 (proj2 (proj2 (unit_scaling f64_zero f64_zero 2047)))))).
    lia.
Defined.

(** ** Slot names *)

(** C8: on the indices 0 to 4 the lookup returns the name of the slot,
    five different names, and on every other index it panics with
    "invalid input" instead of returning a value. *)
Theorem action2str_domain (act : Z) :
  0 <= act ->
  NoDup slot_names /\
  match action2str act with
  | Done name => act <= 4 /\ slot_names !! Z.to_nat act = Some name
  | Panic msg => 4 < act /\ msg = "invalid input"%string
  end.
Proof.
  intros Hact. split.
  - compute_done.
  - destruct act as [|p|p]; [cbn; split; [lia|reflexivity]| |lia].
    destruct p as [[[p|p|]|[p|p|]|]|[[p|p|]|[p|p|]|]|];
      cbn; split; try lia; try reflexivity.
Qed.

Lemma action2str_domain_witness :
  match action2str 7 with
  | Done name => 7 <= 4 /\ slot_names !! Z.to_nat 7 = Some name
  | Panic msg => 4 < 7 /\ msg = "invalid input"%string
  end.
Proof. apply (action2str_domain 7). lia. Defined.

(** ** Collection *)

Lemma datarec_eta (d : datarec) : Datarec (rxPackets d) (rxBytes d) = d.
Proof. now destruct d. Qed.

(** [collectStats] as a decision tree over the five lookups. *)
Lemma collectStats_tree (K : kernel) (n : nat) (r0 r1 r2 r3 r4 : record) :
  collectStats K n (MkStatsRecord (Array5 r0 r1 r2 r3 r4)) =
  Done
    match Map_Lookup K n 0 with
    | inl err => (1 + n, MkStatsRecord (Array5 (stamped K n r0) r1 r2 r3 r4), Some err)%nat
    | inr v0 =>
    let s0 := fresh_slot K n v0 in
    match Map_Lookup K (1 + n) 1 with
    | inl err =>
        (2 + n, MkStatsRecord (Array5 s0 (stamped K (1 + n) r1) r2 r3 r4), Some err)%nat
    | inr v1 =>
    let s1 := fresh_slot K (1 + n) v1 in
    match Map_Lookup K (2 + n) 2 with
    | inl err =>
        (3 + n, MkStatsRecord (Array5 s0 s1 (stamped K (2 + n) r2) r3 r4), Some err)%nat
    | inr v2 =>
    let s2 := fresh_slot K (2 + n) v2 in
    match Map_Lookup K (3 + n) 3 with
    | inl err =>
        (4 + n, MkStatsRecord (Array5 s0 s1 s2 (stamped K (3 + n) r3) r4), Some err)%nat
    | inr v3 =>
    let s3 := fresh_slot K (3 + n) v3 in
    match Map_Lookup K (4 + n) 4 with
    | inl err =>
        (5 + n, MkStatsRecord (Array5 s0 s1 s2 s3 (stamped K (4 + n) r4)), Some err)%nat
    | inr v4 =>
        (5 + n, MkStatsRecord (Array5 s0 s1 s2 s3 (fresh_slot K (4 + n) v4)), None)%nat
    end end end end end.
Proof.
  unfold collectStats. cbn [collect_from].
  change (0 + 1 + 1 + 1 + 1) with 4. change (0 + 1 + 1 + 1) with 3.
  change (0 + 1 + 1) with 2. change (0 + 1) with 1.
  unfold getMapVal, fresh_slot, stamped.
  cbn [index5 store5 Records at0 at1 at2 at3 at4 mbind outcome_bind
       timestamp total rxPackets rxBytes Nat.add].
  destruct (Map_Lookup K n 0) as [e0|v0]; [reflexivity|].
  cbn [index5 store5 Records at0 at1 at2 at3 at4 mbind outcome_bind
       timestamp total rxPackets rxBytes Nat.add].
  destruct (Map_Lookup K (S n) 1) as [e1|v1]; [now rewrite ?datarec_eta|].
  cbn [index5 store5 Records at0 at1 at2 at3 at4 mbind outcome_bind
       timestamp total rxPackets rxBytes Nat.add].
  destruct (Map_Lookup K (S (S n)) 2) as [e2|v2]; [now rewrite ?datarec_eta|].
  cbn [index5 store5 Records at0 at1 at2 at3 at4 mbind outcome_bind
       timestamp total rxPackets rxBytes Nat.add].
  destruct (Map_Lookup K (S (S (S n))) 3) as [e3|v3]; [now rewrite ?datarec_eta|].
  cbn [index5 store5 Records at0 at1 at2 at3 at4 mbind outcome_bind
       timestamp total rxPackets rxBytes Nat.add].
  destruct (Map_Lookup K (S (S (S (S n)))) 4) as [e4|v4]; now rewrite ?datarec_eta.
Qed.

Lemma collectStats_cases (K : kernel) (n : nat) (rec : StatsRecord) :
  (exists n' rec' err, collectStats K n rec = Done (n', rec', Some err)) \/
  (exists rec', forall rec0, collectStats K n rec0 = Done (5 + n, rec', None)%nat).
Proof.
  destruct rec as [[r0 r1 r2 r3 r4]]. rewrite collectStats_tree.
  destruct (Map_Lookup K n 0) as [e0|v0] eqn:E0; [left; eauto|].
  destruct (Map_Lookup K (1 + n) 1) as [e1|v1] eqn:E1; [left; eauto|].
  destruct (Map_Lookup K (2 + n) 2) as [e2|v2] eqn:E2; [left; eauto|].
  destruct (Map_Lookup K (3 + n) 3) as [e3|v3] eqn:E3; [left; eauto|].
  destruct (Map_Lookup K (4 + n) 4) as [e4|v4] eqn:E4; [left; eauto|].
  right. eexists. intros [[q0 q1 q2 q3 q4]].
  rewrite collectStats_tree, E0, E1, E2, E3, E4. reflexivity.
Qed.

Lemma index5_out {A : Type} (a : array5 A) (i : Z) : 5 <= i -> index5 a i = None.
Proof.
  intros Hi. destruct i as [|p|p]; try lia.
  destruct p as [[[p|p|]|[p|p|]|]|[[p|p|]|[p|p|]|]|]; try reflexivity; lia.
Qed.




(** ** The table *)

Section Table.

Implicit Types (rows : list (list string)) (row : list string).

Lemma set_cell_ok rows (r c : nat) (v : string) :
  rows_ok rows -> (1 <= r < 6)%nat -> (c < 6)%nat ->
  exists rows', set_cell rows r c v = Done rows' /\ rows_ok rows'.
Proof.
  intros (Hlen & Hall & Hhead) Hr Hc. unfold set_cell.
  destruct (rows !! r) as [row|] eqn:Hrow.
  - assert (Hrowlen : length row = 6%nat).
    { rewrite Forall_lookup in Hall. exact (Hall r row Hrow). }
    rewrite decide_True by lia. eexists. split; [reflexivity|].
    split; [|split].
    + now rewrite length_insert.
    + apply Forall_insert; [assumption|]. now rewrite length_insert.
    + rewrite list_lookup_insert_ne by lia. assumption.
  - apply lookup_ge_None in Hrow. lia.
Qed.

Lemma update_row_ok (i : Z) (s : stats) rows :
  rows_ok rows -> 0 <= i <= 4 ->
  exists rows', update_row i (Some s) rows = Done rows' /\ rows_ok rows'.
Proof.
  intros Hok Hi. unfold update_row.
  assert (Hr : (1 <= Z.to_nat (i + 1) < 6)%nat) by lia.
  assert (Hname : exists name, action2str i = Done name).
  { assert (i = 0 \/ i = 1 \/ i = 2 \/ i = 3 \/ i = 4) as [->|[->|[->|[->| ->]]]] by lia;
      eexists; reflexivity. }
  destruct Hname as [name ->]. cbn [mbind outcome_bind].
  destruct (set_cell_ok rows _ 0 name Hok Hr ltac:(lia)) as (rows0 & -> & Hok0).
  cbn [mbind outcome_bind].
  destruct (set_cell_ok rows0 _ 1 (Packets s) Hok0 Hr ltac:(lia)) as (rows1 & -> & Hok1).
  cbn [mbind outcome_bind].
  destruct (set_cell_ok rows1 _ 2 (PPs s) Hok1 Hr ltac:(lia)) as (rows2 & -> & Hok2).
  cbn [mbind outcome_bind].
  destruct (set_cell_ok rows2 _ 3 (Bytes s) Hok2 Hr ltac:(lia)) as (rows3 & -> & Hok3).
  cbn [mbind outcome_bind].
  destruct (set_cell_ok rows3 _ 4 (BPs s) Hok3 Hr ltac:(lia)) as (rows4 & -> & Hok4).
  cbn [mbind outcome_bind].
  exact (set_cell_ok rows4 _ 5 (Period s) Hok4 Hr ltac:(lia)).
Qed.

Lemma update_rows_ok (ss : list stats) : forall (i : Z) rows,
  rows_ok rows -> 0 <= i -> i + Z.of_nat (length ss) <= 5 ->
  exists rows', update_rows i (Some <$> ss) rows = Done rows' /\ rows_ok rows'.
Proof.
  induction ss as [|s ss IH]; intros i rows Hok Hi Hlen.
  - exists rows. split; [reflexivity|assumption].
  - cbn [length] in Hlen. cbn [fmap list_fmap update_rows].
    destruct (update_row_ok i s rows Hok ltac:(lia)) as (rows1 & -> & Hok1).
    cbn [mbind outcome_bind]. apply IH; [assumption|lia|lia].
Qed.

Lemma updateTable_ok (prev recv : StatsRecord) (table : Table) :
  rows_ok (Rows table) ->
  exists table', updateTable (calcStats prev recv) table = Done table' /\
                 rows_ok (Rows table').
Proof.
  intros Hok. unfold updateTable, calcStats, array5_to_list. cbn [at0 at1 at2 at3 at4].
  destruct (update_rows_ok
              [calcStat (at0 (Records prev)) (at0 (Records recv));
               calcStat (at1 (Records prev)) (at1 (Records recv));
               calcStat (at2 (Records prev)) (at2 (Records recv));
               calcStat (at3 (Records prev)) (at3 (Records recv));
               calcStat (at4 (Records prev)) (at4 (Records recv))]
              0 (Rows table) Hok ltac:(lia) ltac:(cbn; lia)) as (rows' & Hrows & Hok').
  cbn [fmap list_fmap] in Hrows. rewrite Hrows. cbn [mbind outcome_bind].
  eexists. split; [reflexivity|assumption].
Qed.

End Table.

(** ** The dashboard loop *)

Section Loop.

Variable K : kernel.

Lemma spaced_weaken (ms : list nat) (lo lo' : nat) :
  (lo <= lo')%nat -> spaced lo' ms -> spaced lo ms.
Proof. destruct ms as [|m ms]; cbn; [trivial|]. intros ? [? ?]. split; [lia|assumption]. Qed.

(** Every rendered frame compares the two complete collections made
    in its own iteration, and the loop never panics on a table that
    [rows_ok] describes. *)
Lemma render_loop_inv (evs : list event) : forall (n : nat) (table : Table),
  rows_ok (Rows table) ->
  (exists ms, Forall2 (frame_at K) ms (render_loop K evs n table).1 /\ spaced n ms) /\
  Forall (fun f => rows_ok (Rows (frame_table f))) (render_loop K evs n table).1 /\
  (forall msg, (render_loop K evs n table).2 <> Panicked msg).
Proof.
  assert (Hnil : forall n ex,
             (forall msg, ex <> Panicked msg) ->
             (exists ms, Forall2 (frame_at K) ms ([] : list frame) /\ spaced n ms) /\
             Forall (fun f => rows_ok (Rows (frame_table f))) [] /\
             (forall msg, ex <> Panicked msg)).
  { intros n ex Hex. split; [exists []; split; [constructor|exact I]|].
    split; [constructor|assumption]. }
  induction evs as [|ev evs IH]; intros n table Hok.
  - cbn [render_loop].
    destruct (collectStats_cases K n zero_StatsRecord)
      as [(n' & rec' & err & ->)|(rec' & Hrec)].
    + apply Hnil. discriminate.
    + rewrite Hrec. apply Hnil. discriminate.
  - cbn [render_loop].
    destruct (collectStats_cases K n zero_StatsRecord)
      as [(n' & rec' & err & ->)|(prev & Hprev)]; [apply Hnil; discriminate|].
    rewrite Hprev. destruct ev as [|ID].
    + destruct (collectStats_cases K (5 + n) prev)
        as [(n' & rec' & err & ->)|(recv & Hrecv)]; [apply Hnil; discriminate|].
      rewrite Hrecv.
      destruct (updateTable_ok prev recv table Hok) as (table' & -> & Hok').
      destruct (IH (5 + (5 + n))%nat table' Hok') as ((ms & Hms & Hsp) & Hall & Hex).
      destruct (render_loop K evs (5 + (5 + n)) table') as [frames ex].
      cbn [fst snd] in *. split; [|split].
      * exists (n :: ms). split.
        -- constructor; [|assumption]. split; cbn [frame_prev frame_recv].
           ++ apply Hprev.
           ++ apply Hrecv.
        -- cbn [spaced]. split; [lia|]. exact Hsp.
      * constructor; assumption.
      * assumption.
    + destruct (is_quit ID); [apply Hnil; discriminate|].
      destruct (IH (5 + n)%nat table Hok) as ((ms & Hms & Hsp) & Hall & Hex).
      split; [|split; assumption].
      exists ms. split; [assumption|]. apply spaced_weaken with (5 + n)%nat; [lia|assumption].
Qed.

Lemma initial_table_ok : rows_ok (Rows initial_table).
Proof. split; [reflexivity|]. split; [|reflexivity]. repeat constructor. Qed.

Lemma RenderStats_inv (ui_Init : option error) (evs : list event) :
  (exists ms, Forall2 (frame_at K) ms (RenderStats K ui_Init evs).1 /\ spaced 0 ms) /\
  Forall (fun f => rows_ok (Rows (frame_table f))) (RenderStats K ui_Init evs).1 /\
  (forall msg, (RenderStats K ui_Init evs).2 <> Panicked msg).
Proof.
  unfold RenderStats. destruct ui_Init as [err|].
  - split; [exists []; split; [constructor|exact I]|].
    split; [constructor|discriminate].
  - apply render_loop_inv, initial_table_ok.
Qed.

End Loop.






(** C9: the table built at the start has 6 rows of 6 cells, and so has
    the table of every rendered frame, however many events have been
    handled; the header row is never written, and no update of the table
    panics. *)
Theorem table_is_always_6x6 (K : kernel) (ui_Init : option error) (evs : list event) :
  table_6x6 initial_table /\
  Forall (fun f => table_6x6 (frame_table f) /\
                   Rows (frame_table f) !! 0%nat = Rows initial_table !! 0%nat)
         (RenderStats K ui_Init evs).1 /\
  (forall msg, (RenderStats K ui_Init evs).2 <> Panicked msg).
Proof.
  destruct (RenderStats_inv K ui_Init evs) as (_ & Hall & Hex).
  split; [|split; [|exact Hex]].
  - destruct (initial_table_ok) as (? & ? & _). split; assumption.
  - eapply Forall_impl; [exact Hall|].
    intros f (Hlen & Hrows & Hhead). repeat split; assumption.
Qed.


(** * Further properties *)

(** ** Summation over the CPUs *)

Lemma wrap64_range (z : Z) : is_uint64 (wrap64 z).
Proof. unfold is_uint64, wrap64, uint64_mod. apply Z.mod_pos_bound. lia. Qed.

Lemma sum_percpu_from (vs : list datarec) : forall acc : datarec,
  is_uint64 (rxPackets acc) -> is_uint64 (rxBytes acc) ->
  sum_percpu acc vs =
    Datarec (wrap64 (rxPackets acc + total_of rxPackets vs))
            (wrap64 (rxBytes acc + total_of rxBytes vs)).
Proof.
  unfold sum_percpu.
  induction vs as [|d vs IH]; intros acc Hp Hb; cbn [fold_left total_of].
  - rewrite !Z.add_0_r. unfold wrap64, is_uint64 in *.
    rewrite !Z.mod_small by assumption. now destruct acc.
  - rewrite IH by (cbn; apply wrap64_range). cbn [rxPackets rxBytes].
    unfold add64, wrap64, uint64_mod.
    rewrite !Zplus_mod_idemp_l, !Z.add_assoc. reflexivity.
Qed.

Lemma sum_percpu_zero (vs : list datarec) :
  sum_percpu zero_datarec vs =
    Datarec (total_of rxPackets vs mod 2 ^ 64) (total_of rxBytes vs mod 2 ^ 64).
Proof.
  rewrite sum_percpu_from by (cbn; unfold is_uint64, uint64_mod; lia). reflexivity.
Qed.

(** X1: the loop of getMapVal adds the per-CPU values in 64-bit
    unsigned arithmetic: the stored packet and byte counts are the
    mathematical sums over the CPUs reduced modulo 2^64 (zero for no CPU
    at all), so they always fit in 64 bits. *)
Theorem sum_percpu_is_sum_mod (vs : list datarec) :
  sum_percpu zero_datarec vs =
    Datarec (total_of rxPackets vs mod 2 ^ 64) (total_of rxBytes vs mod 2 ^ 64) /\
  is_uint64 (rxPackets (sum_percpu zero_datarec vs)) /\
  is_uint64 (rxBytes (sum_percpu zero_datarec vs)).
Proof.
  split; [apply sum_percpu_zero|]. rewrite sum_percpu_zero. cbn [rxPackets rxBytes].
  split; apply wrap64_range.
Qed.

Lemma total_of_Permutation (field : datarec -> Z) (vs vs' : list datarec) :
  Permutation vs vs' -> total_of field vs = total_of field vs'.
Proof. induction 1; cbn [total_of] in *; lia. Qed.

(** X2: the sums do not depend on the order in which the CPUs are
    listed. *)
Theorem sum_percpu_order_irrelevant (vs vs' : list datarec) :
  Permutation vs vs' -> sum_percpu zero_datarec vs = sum_percpu zero_datarec vs'.
Proof.
  intros Hperm.
  rewrite !sum_percpu_zero.
  now rewrite (total_of_Permutation rxPackets vs vs'), (total_of_Permutation rxBytes vs vs').
Qed.

Lemma sum_percpu_order_irrelevant_witness :
  sum_percpu zero_datarec [Datarec 2 20; Datarec 3 30] =
  sum_percpu zero_datarec [Datarec 3 30; Datarec 2 20].
Proof.
  apply (sum_percpu_order_irrelevant [Datarec 2 20; Datarec 3 30] [Datarec 3 30; Datarec 2 20]).
  apply perm_swap.
Defined.

(** ** One slot at a time *)

(** X3: a key of 5 or more is outside the array of records; getMapVal
    panics on the index before it looks anything up. *)
Theorem getMapVal_key_out_of_range (K : kernel) (n : nat) (key : Z) (stat : StatsRecord) :
  5 <= key -> getMapVal K n key stat = Panic index_panic.
Proof. intros Hkey. unfold getMapVal. now rewrite index5_out. Qed.

Lemma getMapVal_key_out_of_range_witness :
  getMapVal missing_key_1 0 5 zero_StatsRecord = Panic index_panic.
Proof. apply (getMapVal_key_out_of_range missing_key_1 0 5 zero_StatsRecord). lia. Defined.

Ltac index_cases j :=
  destruct j as [|[[?|?|]|[?|[?|?|]|]|]|?]; try reflexivity; try congruence.

(** X4: for a key from 0 to 4 getMapVal touches the slot of that key
    only.  The slot always gets the clock reading as its timestamp; when
    the lookup succeeds its totals become the sums over the CPUs and nil
    is returned, when the lookup fails the error is returned and the
    totals stay as they were. *)
Theorem getMapVal_updates_one_slot (K : kernel) (n : nat) (key : Z) (stat : StatsRecord) :
  0 <= key <= 4 ->
  exists stat' r,
    getMapVal K n key stat = Done (stat', r) /\
    (forall j, j <> key -> index5 (Records stat') j = index5 (Records stat) j) /\
    timestamp <$> index5 (Records stat') key = Some (time_Now K n) /\
    match Map_Lookup K n key with
    | inl err =>
        r = Some err /\
        total <$> index5 (Records stat') key = total <$> index5 (Records stat) key
    | inr vs =>
        r = None /\
        total <$> index5 (Records stat') key = Some (sum_percpu zero_datarec vs)
    end.
Proof.
  intros Hkey. destruct stat as [[r0 r1 r2 r3 r4]]. unfold getMapVal.
  assert (key = 0 \/ key = 1 \/ key = 2 \/ key = 3 \/ key = 4)
    as [->|[->|[->|[->| ->]]]] by lia;
    cbn [index5 store5 Records at0 at1 at2 at3 at4 timestamp total rxPackets rxBytes];
    destruct (Map_Lookup K n _) as [err|vs];
    (do 2 eexists; split; [reflexivity|]; split;
     [intros j Hj; index_cases j
     |split; [reflexivity|split; [reflexivity|cbn; now rewrite ?datarec_eta]]]).
Qed.

Lemma getMapVal_updates_one_slot_witness :
  exists stat' r,
    getMapVal missing_key_1 0 1 zero_StatsRecord = Done (stat', r) /\
    (forall j, j <> 1 -> index5 (Records stat') j = index5 (Records zero_StatsRecord) j) /\
    timestamp <$> index5 (Records stat') 1 = Some (time_Now missing_key_1 0) /\
    match Map_Lookup missing_key_1 0 1 with
    | inl err =>
        r = Some err /\
        total <$> index5 (Records stat') 1 = total <$> index5 (Records zero_StatsRecord) 1
    | inr vs =>
        r = None /\
        total <$> index5 (Records stat') 1 = Some (sum_percpu zero_datarec vs)
    end.
Proof. apply (getMapVal_updates_one_slot missing_key_1 0 1 zero_StatsRecord). lia. Defined.

(** ** Complete collections *)

Lemma collectStats_success_shape (K : kernel) (n n' : nat) (rec rec' : StatsRecord) :
  collectStats K n rec = Done (n', rec', None) ->
  exists v0 v1 v2 v3 v4,
    Map_Lookup K n 0 = inr v0 /\ Map_Lookup K (1 + n) 1 = inr v1 /\
    Map_Lookup K (2 + n) 2 = inr v2 /\ Map_Lookup K (3 + n) 3 = inr v3 /\
    Map_Lookup K (4 + n) 4 = inr v4 /\
    n' = (5 + n)%nat /\
    rec' = MkStatsRecord
             (Array5 (fresh_slot K n v0) (fresh_slot K (1 + n) v1) (fresh_slot K (2 + n) v2)
                     (fresh_slot K (3 + n) v3) (fresh_slot K (4 + n) v4)).
Proof.
  destruct rec as [[r0 r1 r2 r3 r4]]. rewrite collectStats_tree.
  destruct (Map_Lookup K n 0) as [e0|v0]; [discriminate|].
  destruct (Map_Lookup K (1 + n) 1) as [e1|v1]; [discriminate|].
  destruct (Map_Lookup K (2 + n) 2) as [e2|v2]; [discriminate|].
  destruct (Map_Lookup K (3 + n) 3) as [e3|v3]; [discriminate|].
  destruct (Map_Lookup K (4 + n) 4) as [e4|v4]; [discriminate|].
  intros H. injection H as <- <-. exists v0, v1, v2, v3, v4. repeat split.
Qed.

Lemma fresh_slot_in_range (K : kernel) (n : nat) (vs : list datarec) :
  is_uint64 (rxPackets (total (fresh_slot K n vs))) /\
  is_uint64 (rxBytes (total (fresh_slot K n vs))).
Proof.
  unfold fresh_slot. cbn [total]. rewrite sum_percpu_zero. cbn [rxPackets rxBytes].
  split; apply wrap64_range.
Qed.

(** X5: a collection that succeeds makes exactly five accesses and
    overwrites all five slots: the record it leaves is the same whatever
    the record held before, nothing of the old contents survives, and
    every counter in it fits in 64 bits. *)
Theorem collectStats_success_overwrites
    (K : kernel) (n n' : nat) (rec rec' : StatsRecord) :
  collectStats K n rec = Done (n', rec', None) ->
  n' = (5 + n)%nat /\
  (forall rec0, collectStats K n rec0 = Done (n', rec', None)) /\
  counters_in_range rec'.
Proof.
  intros H.
  destruct (collectStats_success_shape K n n' rec rec' H)
    as (v0 & v1 & v2 & v3 & v4 & E0 & E1 & E2 & E3 & E4 & -> & ->).
  split; [reflexivity|]. split.
  - intros [[q0 q1 q2 q3 q4]]. rewrite collectStats_tree, E0, E1, E2, E3, E4. reflexivity.
  - unfold counters_in_range, array5_to_list. cbn [Records at0 at1 at2 at3 at4].
    repeat (constructor; [apply fresh_slot_in_range|]). constructor.
Qed.

Lemma collectStats_success_overwrites_witness :
  collectStats counting_kernel 0 stale_StatsRecord =
  collectStats counting_kernel 0 zero_StatsRecord.
Proof.
  destruct (collectStats_success_overwrites counting_kernel 0 5
              zero_StatsRecord
              (MkStatsRecord
                 (Array5 (Record_ 0 (Datarec 0 0)) (Record_ Second (Datarec 2 512))
                         (Record_ (2 * Second) (Datarec 4 1024))
                         (Record_ (3 * Second) (Datarec 6 1536))
                         (Record_ (4 * Second) (Datarec 8 2048))))
              eq_refl) as (_ & Hall & _).
  rewrite (Hall stale_StatsRecord). symmetry. apply Hall.
Defined.

(** ** Short buffers *)

(** X6: on a buffer of fewer than 16 bytes UnmarshalBinary fails as
    binary.Read does: with fewer than 8 bytes the receiver is untouched
    and the error is io.EOF for an empty buffer, io.ErrUnexpectedEOF
    otherwise; with 8 to 15 bytes the packets field has already been
    overwritten with the first 8 bytes, the bytes field is kept, and the
    error is io.EOF for exactly 8 bytes, io.ErrUnexpectedEOF otherwise. *)
Theorem UnmarshalBinary_short_buffer (d : datarec) (p : list byte) :
  (length p < 16)%nat ->
  UnmarshalBinary d p =
    if decide (length p < 8)%nat
    then (d, Some (if decide (length p = 0)%nat then io_EOF else io_ErrUnexpectedEOF))
    else (Datarec (le_value (take 8 p)) (rxBytes d),
          Some (if decide (length p = 8)%nat then io_EOF else io_ErrUnexpectedEOF)).
Proof.
  intros Hlen. unfold UnmarshalBinary, binary_Read_uint64.
  destruct (decide (length p < 8)%nat) as [H8|H8].
  - unfold io_ReadFull. rewrite decide_False by lia.
    destruct p as [|b p]; cbn [length]; [reflexivity|].
    rewrite decide_False by lia. reflexivity.
  - rewrite io_ReadFull_enough by lia.
    rewrite LittleEndian_Uint64_le_value by (rewrite length_take; lia).
    unfold io_ReadFull. rewrite decide_False by (rewrite length_drop; lia).
    destruct (drop 8 p) as [|b q] eqn:Hq.
    + apply (f_equal length) in Hq. rewrite length_drop in Hq. cbn in Hq.
      rewrite decide_True by lia. reflexivity.
    + apply (f_equal length) in Hq. rewrite length_drop in Hq. cbn in Hq.
      rewrite decide_False by lia. reflexivity.
Qed.

Lemma UnmarshalBinary_short_buffer_witness :
  UnmarshalBinary (Datarec 7 9) (take 8 buffer_1_2) = (Datarec 1 9, Some io_EOF).
Proof.
  apply (UnmarshalBinary_short_buffer (Datarec 7 9) (take 8 buffer_1_2)).
  simpl. lia.
Defined.

(** ** Counter overflow *)

(** X7: the unsigned subtraction of calcStats gives the true increase
    of each counter even when the 64-bit counter has wrapped around in
    between.  For the packet counter and for the byte counter
    separately: if the current count is the previous one plus an
    increase below 2^64, modulo 2^64, the difference computed is that
    increase; the packet rate is the packet increase over the period and
    the byte difference is the byte increase. *)
Theorem delta_survives_counter_overflow (prev rec : record) (dp db : Z) :
  (0 <= dp < 2 ^ 64 ->
   rxPackets (total rec) = wrap64 (rxPackets (total prev) + dp) ->
   sub64 (rxPackets (total rec)) (rxPackets (total prev)) = dp /\
   pps_of prev rec = f64_div (f64_of_Z dp) (period_of prev rec)) /\
  (0 <= db < 2 ^ 64 ->
   rxBytes (total rec) = wrap64 (rxBytes (total prev) + db) ->
   sub64 (rxBytes (total rec)) (rxBytes (total prev)) = db /\
   bytes_of prev rec = f64_of_Z db).
Proof.
  assert (Hsub : forall c d, 0 <= d < 2 ^ 64 -> sub64 (wrap64 (c + d)) c = d).
  { intros c d Hd. unfold sub64, wrap64, uint64_mod.
    rewrite Zminus_mod_idemp_l. replace (c + d - c) with d by lia.
    apply Z.mod_small. assumption. }
  split; intros Hd Heq.
  - unfold pps_of, float64_of_int. now rewrite Heq, Hsub.
  - unfold bytes_of, float64_of_int. now rewrite Heq, Hsub.
Qed.

Lemma delta_survives_counter_overflow_witness :
  (sub64 2 (2 ^ 64 - 1) = 3 /\
   pps_of (Record_ 0 (Datarec (2 ^ 64 - 1) 100)) (Record_ Second (Datarec 2 400)) =
     f64_div (f64_of_Z 3) (period_of (Record_ 0 (Datarec (2 ^ 64 - 1) 100))
                                    (Record_ Second (Datarec 2 400)))) /\
  (sub64 400 100 = 300 /\
   bytes_of (Record_ 0 (Datarec (2 ^ 64 - 1) 100)) (Record_ Second (Datarec 2 400)) =
     f64_of_Z 300).
Proof.
  pose proof (delta_survives_counter_overflow
                (Record_ 0 (Datarec (2 ^ 64 - 1) 100)) (Record_ Second (Datarec 2 400))
                3 300) as [Hp Hb].
  split; [apply Hp|apply Hb]; first [lia|reflexivity].
Defined.

(** ** Writing the table *)

Ltac six_cells row H :=
  destruct row as [|? [|? [|? [|? [|? [|? [|? ?]]]]]]]; try discriminate H.

Lemma update_rows_content (s0 s1 s2 s3 s4 : stats) (rows : list (list string)) :
  length rows = 6%nat -> Forall (fun row => length row = 6%nat) rows ->
  update_rows 0 [Some s0; Some s1; Some s2; Some s3; Some s4] rows =
    Done (take 1 rows ++
          [stats_row "XDP_ABORT" s0; stats_row "XDP_DROP" s1; stats_row "XDP_PASS" s2;
           stats_row "XDP_TX" s3; stats_row "XDP_REDIRECT" s4]).
Proof.
  intros Hlen Hall.
  destruct rows as [|h [|a [|b [|c [|d [|e [|? ?]]]]]]]; try discriminate Hlen.
  apply Forall_cons in Hall as [Hh Hall]. apply Forall_cons in Hall as [Ha Hall].
  apply Forall_cons in Hall as [Hb Hall]. apply Forall_cons in Hall as [Hc Hall].
  apply Forall_cons in Hall as [Hd Hall]. apply Forall_cons in Hall as [He _].
  six_cells a Ha. six_cells b Hb. six_cells c Hc. six_cells d Hd. six_cells e He.
  reflexivity.
Qed.

Lemma updateTable_writes_all_rows_aux (s0 s1 s2 s3 s4 : stats) (table : Table) :
  table_6x6 table ->
  updateTable (Array5 (Some s0) (Some s1) (Some s2) (Some s3) (Some s4)) table =
    Done (MkTable (take 1 (Rows table) ++
                   [stats_row "XDP_ABORT" s0; stats_row "XDP_DROP" s1;
                    stats_row "XDP_PASS" s2; stats_row "XDP_TX" s3;
                    stats_row "XDP_REDIRECT" s4])).
Proof.
  intros [Hlen Hall]. unfold updateTable, array5_to_list. cbn [at0 at1 at2 at3 at4].
  now rewrite update_rows_content.
Qed.

(** X8: on a table of 6 rows of 6 cells updateTable does not panic,
    keeps the first row and overwrites all 30 cells of the five data
    rows: row i+1 becomes the name of slot i followed by the five
    strings of its statistics, whatever the cells held before. *)
Theorem updateTable_writes_all_data_rows (s0 s1 s2 s3 s4 : stats) (table : Table) :
  table_6x6 table ->
  updateTable (Array5 (Some s0) (Some s1) (Some s2) (Some s3) (Some s4)) table =
    Done (MkTable (take 1 (Rows table) ++
                   [stats_row "XDP_ABORT" s0; stats_row "XDP_DROP" s1;
                    stats_row "XDP_PASS" s2; stats_row "XDP_TX" s3;
                    stats_row "XDP_REDIRECT" s4])).
Proof.
  apply updateTable_writes_all_rows_aux.
Qed.

Lemma updateTable_writes_all_data_rows_witness :
  updateTable (calcStats zero_StatsRecord zero_StatsRecord) initial_table =
    Done (MkTable (rendered_rows zero_StatsRecord zero_StatsRecord)).
Proof.
  apply (updateTable_writes_all_data_rows
           (calcStat zero_record zero_record) (calcStat zero_record zero_record)
           (calcStat zero_record zero_record) (calcStat zero_record zero_record)
           (calcStat zero_record zero_record) initial_table).
  split; [reflexivity|]. repeat constructor.
Defined.

Lemma set_cell_outcome (rows : list (list string)) (r c : nat) (v : string) :
  set_cell rows r c v = Panic index_panic \/
  exists rows', set_cell rows r c v = Done rows' /\
                length rows' = length rows /\ (r < length rows)%nat.
Proof.
  unfold set_cell. destruct (rows !! r) as [row|] eqn:Hrow; [|now left].
  destruct (decide (c < length row)%nat); [|now left].
  right. eexists. split; [reflexivity|]. rewrite length_insert.
  split; [reflexivity|]. now apply lookup_lt_Some in Hrow.
Qed.

Lemma update_row_outcome (i : Z) (s : stats) (rows : list (list string)) :
  0 <= i <= 4 ->
  update_row i (Some s) rows = Panic index_panic \/
  exists rows', update_row i (Some s) rows = Done rows' /\
                length rows' = length rows /\ (Z.to_nat (i + 1) < length rows)%nat.
Proof.
  intros Hi. unfold update_row.
  assert (Hname : exists name, action2str i = Done name).
  { assert (i = 0 \/ i = 1 \/ i = 2 \/ i = 3 \/ i = 4) as [->|[->|[->|[->| ->]]]] by lia;
      eexists; reflexivity. }
  destruct Hname as [name ->]. cbn [mbind outcome_bind].
  destruct (set_cell_outcome rows (Z.to_nat (i + 1)) 0 name)
    as [->|(rows0 & -> & L0 & Hr)]; [now left|]. cbn [mbind outcome_bind].
  destruct (set_cell_outcome rows0 (Z.to_nat (i + 1)) 1 (Packets s))
    as [->|(rows1 & -> & L1 & _)]; [now left|]. cbn [mbind outcome_bind].
  destruct (set_cell_outcome rows1 (Z.to_nat (i + 1)) 2 (PPs s))
    as [->|(rows2 & -> & L2 & _)]; [now left|]. cbn [mbind outcome_bind].
  destruct (set_cell_outcome rows2 (Z.to_nat (i + 1)) 3 (Bytes s))
    as [->|(rows3 & -> & L3 & _)]; [now left|]. cbn [mbind outcome_bind].
  destruct (set_cell_outcome rows3 (Z.to_nat (i + 1)) 4 (BPs s))
    as [->|(rows4 & -> & L4 & _)]; [now left|]. cbn [mbind outcome_bind].
  destruct (set_cell_outcome rows4 (Z.to_nat (i + 1)) 5 (Period s))
    as [->|(rows5 & -> & L5 & _)]; [now left|].
  right. exists rows5. split; [reflexivity|]. split; [congruence|assumption].
Qed.

Lemma update_rows_too_short (ss : list stats) : forall (i : Z) (rows : list (list string)),
  0 <= i -> i + Z.of_nat (length ss) <= 5 -> ss <> [] ->
  Z.of_nat (length rows) <= i + Z.of_nat (length ss) ->
  update_rows i (Some <$> ss) rows = Panic index_panic.
Proof.
  induction ss as [|s ss IH]; intros i rows Hi Hfit Hne Hshort; [congruence|].
  cbn [length] in Hfit, Hshort. cbn [fmap list_fmap update_rows].
  destruct (update_row_outcome i s rows ltac:(lia)) as [->|(rows' & -> & Hlen & Hrow)];
    [reflexivity|].
  cbn [mbind outcome_bind]. apply IH; try lia.
  intros ->. cbn [length] in Hshort. lia.
Qed.

(** X9: a table with fewer than 6 rows is too small for the five data
    rows: updateTable panics with an index out of range instead of
    growing the table. *)
Theorem updateTable_needs_six_rows (s0 s1 s2 s3 s4 : stats) (table : Table) :
  (length (Rows table) < 6)%nat ->
  updateTable (Array5 (Some s0) (Some s1) (Some s2) (Some s3) (Some s4)) table =
    Panic index_panic.
Proof.
  intros Hlen. unfold updateTable, array5_to_list. cbn [at0 at1 at2 at3 at4].
  change [Some s0; Some s1; Some s2; Some s3; Some s4]
    with (Some <$> [s0; s1; s2; s3; s4]).
  rewrite update_rows_too_short; [reflexivity|lia|cbn; lia|discriminate|cbn; lia].
Qed.

Lemma updateTable_needs_six_rows_witness :
  updateTable (calcStats zero_StatsRecord zero_StatsRecord)
              (MkTable (take 5 (Rows initial_table))) = Panic index_panic.
Proof.
  apply (updateTable_needs_six_rows
           (calcStat zero_record zero_record) (calcStat zero_record zero_record)
           (calcStat zero_record zero_record) (calcStat zero_record zero_record)
           (calcStat zero_record zero_record) (MkTable (take 5 (Rows initial_table)))).
  simpl. lia.
Defined.

(** ** Runs of the dashboard loop *)

Lemma render_loop_tables (K : kernel) (evs : list event) : forall (n : nat) (table : Table),
  rows_ok (Rows table) ->
  Forall (fun f => Rows (frame_table f) = rendered_rows (frame_prev f) (frame_recv f))
         (render_loop K evs n table).1.
Proof.
  induction evs as [|ev evs IH]; intros n table Hok; cbn [render_loop].
  - destruct (collectStats K n zero_StatsRecord) as [[[n1 r1] [e|]]|msg]; constructor.
  - destruct (collectStats K n zero_StatsRecord) as [[[n1 prev] [e|]]|msg];
      try constructor.
    destruct ev as [|ID].
    + destruct (collectStats K n1 prev) as [[[n2 recv] [e|]]|msg]; try constructor.
      destruct (updateTable_ok prev recv table Hok) as (table' & Hupd & Hok').
      pose proof Hupd as Hupd'. unfold calcStats in Hupd'.
      rewrite updateTable_writes_all_rows_aux in Hupd' by (destruct Hok as (? & ? & _); now split).
      rewrite Hupd. specialize (IH n2 table' Hok').
      destruct (render_loop K evs n2 table') as [frames ex]. cbn [fst] in *.
      constructor; [|assumption]. cbn [frame_table frame_prev frame_recv].
      injection Hupd' as <-. cbn [Rows].
      destruct Hok as (_ & _ & Hhead). destruct (Rows table) as [|h rows]; [discriminate|].
      cbn in Hhead. injection Hhead as ->. reflexivity.
    + destruct (is_quit ID); [constructor|]. now apply IH.
Qed.

(** X10: the table handed to the renderer on a tick shows exactly the
    statistics of that tick: the header row followed, for each slot, by
    its name and the strings calcStats computed from the two snapshots
    of the tick; nothing of an earlier tick is left in it. *)
Theorem frame_shows_its_own_statistics
    (K : kernel) (ui_Init : option error) (evs : list event) :
  Forall (fun f => Rows (frame_table f) = rendered_rows (frame_prev f) (frame_recv f))
         (RenderStats K ui_Init evs).1.
Proof.
  unfold RenderStats. destruct ui_Init; [constructor|].
  apply render_loop_tables, initial_table_ok.
Qed.

Lemma render_loop_quit_final (K : kernel) (ID : string) (rest : list event) (evs : list event) :
  is_quit ID = true ->
  forall (n : nat) (table : Table),
    render_loop K (evs ++ UiEvent ID :: rest) n table =
    render_loop K (evs ++ [UiEvent ID]) n table.
Proof.
  intros Hq. induction evs as [|ev evs IH]; intros n table; cbn [app render_loop].
  - rewrite Hq. reflexivity.
  - destruct (collectStats K n zero_StatsRecord) as [[[n1 prev] [e|]]|msg]; try reflexivity.
    destruct ev as [|ID'].
    + destruct (collectStats K n1 prev) as [[[n2 recv] [e|]]|msg]; try reflexivity.
      destruct (updateTable (calcStats prev recv) table); [|reflexivity].
      now rewrite IH.
    + destruct (is_quit ID'); [reflexivity|]. apply IH.
Qed.

(** X11: a quit event ends the run: whatever events follow "q" or
    "<C-c>" are never handled, the frames and the result are those of the
    run that stops at the quit event. *)
Theorem quit_ends_the_run
    (K : kernel) (ui_Init : option error) (evs rest : list event) (ID : string) :
  ID = "q"%string \/ ID = "<C-c>"%string ->
  RenderStats K ui_Init (evs ++ UiEvent ID :: rest) =
  RenderStats K ui_Init (evs ++ [UiEvent ID]).
Proof.
  intros HID. unfold RenderStats. destruct ui_Init; [reflexivity|].
  apply render_loop_quit_final. destruct HID as [-> | ->]; reflexivity.
Qed.

Lemma quit_ends_the_run_witness :
  RenderStats counting_kernel None ([Tick] ++ UiEvent "q" :: [Tick; Tick]) =
  RenderStats counting_kernel None ([Tick] ++ [UiEvent "q"]).
Proof.
  apply (quit_ends_the_run counting_kernel None [Tick] [Tick; Tick] "q").
  left. reflexivity.
Defined.

Section Healthy.

Variable K : kernel.
Hypothesis lookups_succeed :
  forall (n : nat) (key : Z), 0 <= key <= 4 -> exists vs, Map_Lookup K n key = inr vs.

Lemma collectStats_healthy (n : nat) (rec : StatsRecord) :
  exists rec', collectStats K n rec = Done (5 + n, rec', None)%nat.
Proof.
  destruct rec as [[r0 r1 r2 r3 r4]]. rewrite collectStats_tree.
  destruct (lookups_succeed n 0 ltac:(lia)) as [v0 ->].
  destruct (lookups_succeed (1 + n) 1 ltac:(lia)) as [v1 ->].
  destruct (lookups_succeed (2 + n) 2 ltac:(lia)) as [v2 ->].
  destruct (lookups_succeed (3 + n) 3 ltac:(lia)) as [v3 ->].
  destruct (lookups_succeed (4 + n) 4 ltac:(lia)) as [v4 ->].
  eexists. reflexivity.
Qed.

Lemma render_loop_healthy (evs : list event) : forall (n : nat) (table : Table),
  rows_ok (Rows table) ->
  length (render_loop K evs n table).1 = ticks_before_quit evs /\
  (render_loop K evs n table).2 = if has_quit evs then Returned None else Waiting.
Proof.
  induction evs as [|ev evs IH]; intros n table Hok; cbn [render_loop].
  - destruct (collectStats_healthy n zero_StatsRecord) as [prev ->]. split; reflexivity.
  - destruct (collectStats_healthy n zero_StatsRecord) as [prev ->].
    destruct ev as [|ID]; cbn [ticks_before_quit has_quit existsb orb].
    + destruct (collectStats_healthy (5 + n) prev) as [recv ->].
      destruct (updateTable_ok prev recv table Hok) as (table' & -> & Hok').
      destruct (IH (5 + (5 + n))%nat table' Hok') as [Hlen Hex].
      destruct (render_loop K evs (5 + (5 + n)) table') as [frames ex].
      cbn [fst snd length] in *. split; [now f_equal|assumption].
    + destruct (is_quit ID); [split; reflexivity|]. cbn [orb]. now apply IH.
Qed.

End Healthy.

(** X12: as long as every lookup of the keys 0 to 4 succeeds, every
    tick received before the first quit event renders exactly one frame;
    the run returns nil if a quit event arrives and otherwise keeps
    waiting for the next event. *)
Theorem one_frame_per_tick (K : kernel) (evs : list event) :
  (forall (n : nat) (key : Z), 0 <= key <= 4 -> exists vs, Map_Lookup K n key = inr vs) ->
  length (RenderStats K None evs).1 = ticks_before_quit evs /\
  (RenderStats K None evs).2 = if has_quit evs then Returned None else Waiting.
Proof.
  intros Hok. unfold RenderStats. apply render_loop_healthy; [assumption|].
  apply initial_table_ok.
Qed.

Lemma counting_kernel_lookups (n : nat) (key : Z) :
  0 <= key <= 4 -> exists vs, Map_Lookup counting_kernel n key = inr vs.
Proof. intros _. eexists. reflexivity. Qed.

Lemma one_frame_per_tick_witness :
  length (RenderStats counting_kernel None [Tick; UiEvent "x"; Tick; UiEvent "q"; Tick]).1
    = 2%nat /\
  (RenderStats counting_kernel None [Tick; UiEvent "x"; Tick; UiEvent "q"; Tick]).2
    = Returned None.
Proof.
  apply (one_frame_per_tick counting_kernel [Tick; UiEvent "x"; Tick; UiEvent "q"; Tick]).
  exact counting_kernel_lookups.
Defined.

Lemma collectStats_error_is_lookup_error
    (K : kernel) (n n' : nat) (rec rec' : StatsRecord) (err : error) :
  collectStats K n rec = Done (n', rec', Some err) ->
  exists (m : nat) (key : Z), 0 <= key <= 4 /\ Map_Lookup K m key = inl err.
Proof.
  destruct rec as [[r0 r1 r2 r3 r4]]. rewrite collectStats_tree.
  destruct (Map_Lookup K n 0) as [e0|v0] eqn:E0.
  { intros H. injection H as _ _ <-. exists n, 0. split; [lia|assumption]. }
  destruct (Map_Lookup K (1 + n) 1) as [e1|v1] eqn:E1.
  { intros H. injection H as _ _ <-. exists (1 + n)%nat, 1. split; [lia|assumption]. }
  destruct (Map_Lookup K (2 + n) 2) as [e2|v2] eqn:E2.
  { intros H. injection H as _ _ <-. exists (2 + n)%nat, 2. split; [lia|assumption]. }
  destruct (Map_Lookup K (3 + n) 3) as [e3|v3] eqn:E3.
  { intros H. injection H as _ _ <-. exists (3 + n)%nat, 3. split; [lia|assumption]. }
  destruct (Map_Lookup K (4 + n) 4) as [e4|v4] eqn:E4.
  { intros H. injection H as _ _ <-. exists (4 + n)%nat, 4. split; [lia|assumption]. }
  discriminate.
Qed.

Lemma render_loop_error (K : kernel) (evs : list event) :
  forall (n : nat) (table : Table) (e : error),
    (render_loop K evs n table).2 = Returned (Some e) ->
    exists (m : nat) (key : Z) (cause : error),
      0 <= key <= 4 /\ Map_Lookup K m key = inl cause /\
      e = wrap_error "error collecting stats" cause.
Proof.
  assert (Hwrap : forall n n' rec rec' err e,
             collectStats K n rec = Done (n', rec', Some err) ->
             collect_error err = Returned (Some e) ->
             exists (m : nat) (key : Z) (cause : error),
               0 <= key <= 4 /\ Map_Lookup K m key = inl cause /\
               e = wrap_error "error collecting stats" cause).
  { intros n n' rec rec' err e Hc He.
    destruct (collectStats_error_is_lookup_error K n n' rec rec' err Hc) as (m & key & Hk & Hm).
    injection He as <-. exists m, key, err. repeat split; assumption || lia. }
  induction evs as [|ev evs IH]; intros n table e; cbn [render_loop].
  - destruct (collectStats K n zero_StatsRecord) as [[[n1 r1] [err|]]|msg] eqn:Hc;
      cbn [snd]; try discriminate.
    intros He. exact (Hwrap _ _ _ _ _ _ Hc He).
  - destruct (collectStats K n zero_StatsRecord) as [[[n1 prev] [err|]]|msg] eqn:Hc;
      cbn [snd]; try discriminate.
    { intros He. exact (Hwrap _ _ _ _ _ _ Hc He). }
    destruct ev as [|ID].
    + destruct (collectStats K n1 prev) as [[[n2 recv] [err|]]|msg] eqn:Hc2;
        cbn [snd]; try discriminate.
      { intros He. exact (Hwrap _ _ _ _ _ _ Hc2 He). }
      destruct (updateTable (calcStats prev recv) table) as [table'|msg];
        cbn [snd]; try discriminate.
      specialize (IH n2 table' e).
      destruct (render_loop K evs n2 table') as [frames ex]. exact IH.
    + destruct (is_quit ID); cbn [snd]; [discriminate|]. apply IH.
Qed.

(** X13: once the terminal is initialised, the only error RenderStats
    returns is the error of a failed lookup of one of the keys 0 to 4,
    wrapped with the message "error collecting stats"; it invents no
    error and reports none other. *)
Theorem returned_error_is_wrapped_lookup_error
    (K : kernel) (evs : list event) (e : error) :
  (RenderStats K None evs).2 = Returned (Some e) ->
  exists (m : nat) (key : Z) (cause : error),
    0 <= key <= 4 /\ Map_Lookup K m key = inl cause /\
    e = wrap_error "error collecting stats" cause.
Proof. unfold RenderStats. apply render_loop_error. Qed.

Lemma returned_error_is_wrapped_lookup_error_witness :
  exists (m : nat) (key : Z) (cause : error),
    0 <= key <= 4 /\ Map_Lookup missing_key_1 m key = inl cause /\
    wrap_error "error collecting stats" (lookup_error "key does not exist") =
      wrap_error "error collecting stats" cause.
Proof.
  apply (returned_error_is_wrapped_lookup_error missing_key_1 [Tick; Tick]
           (wrap_error "error collecting stats" (lookup_error "key does not exist"))).
  reflexivity.
Defined.

(** ** Rounding keeps signs *)

Lemma fexp_lower (e : Z) : -1074 <= fexp 53 1024 e.
Proof. unfold fexp, emin. lia. Qed.

Lemma shr_record_of_loc_m (m : Z) (l : location) : shr_m (shr_record_of_loc m l) = m.
Proof. destruct l as [|[| |]]; reflexivity. Qed.

Lemma shr_fexp_spec (m e : Z) (l : location) :
  0 <= m ->
  let n := Z.max 0 (fexp 53 1024 (Zdigits2 m + e) - e) in
  shr_m (fst (shr_fexp 53 1024 m e l)) = m / 2 ^ n /\
  snd (shr_fexp 53 1024 m e l) = e + n.
Proof.
  intros Hm n. subst n. unfold shr_fexp, shr.
  destruct (fexp 53 1024 (Zdigits2 m + e) - e) as [|k|k]; cbn [fst snd].
  - rewrite shr_record_of_loc_m. change (Z.max 0 0) with 0.
    rewrite Z.pow_0_r, Z.div_1_r. split; lia.
  - rewrite iter_pos_shr_1 by (rewrite shr_record_of_loc_m; assumption).
    rewrite shr_record_of_loc_m. replace (Z.max 0 (Zpos k)) with (Zpos k) by lia.
    split; reflexivity.
  - rewrite shr_record_of_loc_m. replace (Z.max 0 (Zneg k)) with 0 by lia.
    rewrite Z.pow_0_r, Z.div_1_r. split; lia.
Qed.

Lemma shr_fexp_exponent_lower (m e : Z) (l : location) :
  0 <= m -> -1074 <= snd (shr_fexp 53 1024 m e l) /\ e <= snd (shr_fexp 53 1024 m e l).
Proof.
  intros Hm. destruct (shr_fexp_spec m e l Hm) as [_ ->].
  pose proof (fexp_lower (Zdigits2 m + e)). lia.
Qed.

Lemma shr_fexp_nonneg (m e : Z) (l : location) :
  0 <= m -> 0 <= shr_m (fst (shr_fexp 53 1024 m e l)).
Proof.
  intros Hm. destruct (shr_fexp_spec m e l Hm) as [-> _].
  apply Z.div_pos; [assumption|]. apply Z.pow_pos_nonneg; lia.
Qed.

Lemma round_nearest_even_bounds (m : Z) (l : location) :
  m <= round_nearest_even m l <= m + 1.
Proof.
  destruct l as [|[| |]]; cbn [round_nearest_even]; try lia.
  destruct (Z.even m); lia.
Qed.

(** Rounding a non-negative mantissa never gives NaN and keeps the
    sign; a finite result has an exponent of at least -1074. *)
Lemma binary_round_aux_signed (s : bool) (m e : Z) (l : location) :
  0 <= m -> signed_or_zero s (binary_round_aux 53 1024 s m e l).
Proof.
  intros Hm. unfold binary_round_aux.
  pose proof (shr_fexp_nonneg m e l Hm) as H1.
  destruct (shr_fexp 53 1024 m e l) as [mrs' e']. cbn [fst] in H1.
  pose proof (round_nearest_even_bounds (shr_m mrs') (loc_of_shr_record mrs')) as Hr.
  set (m'' := round_nearest_even (shr_m mrs') (loc_of_shr_record mrs')) in *.
  assert (H2 : 0 <= m'') by lia.
  pose proof (shr_fexp_nonneg m'' e' loc_Exact H2) as H3.
  pose proof (shr_fexp_exponent_lower m'' e' loc_Exact H2) as [H4 _].
  destruct (shr_fexp 53 1024 m'' e' loc_Exact) as [mrs'' e'']. cbn [fst snd] in H3, H4.
  destruct (shr_m mrs'') as [|q|q]; [reflexivity| |lia].
  destruct (e'' <=? 1024 - 53); cbn; [split; [reflexivity|assumption]|reflexivity].
Qed.

Lemma Zdigits2_upper (x k : Z) : 0 <= k -> 0 <= x < 2 ^ k -> Zdigits2 x <= k.
Proof.
  intros Hk [Hx Hlt]. destruct x as [|p|p]; cbn [Zdigits2]; try lia.
  pose proof (digits2_pos_bounds p) as [Hlo _].
  destruct (Z.le_gt_cases (Zpos (digits2_pos p)) k) as [?|Hgt]; [assumption|].
  exfalso. assert (2 ^ k <= 2 ^ (Zpos (digits2_pos p) - 1)) by (apply Z.pow_le_mono_r; lia).
  lia.
Qed.

Lemma digits2_pos_iter_xO (d p : positive) :
  digits2_pos (Pos.iter xO p d) = (digits2_pos p + d)%positive.
Proof.
  induction d as [|d IH] using Pos.peano_ind.
  - cbn. lia.
  - rewrite Pos.iter_succ. cbn [digits2_pos]. rewrite IH. lia.
Qed.

(** Rounding a positive mantissa of moderate size gives a finite
    number, with an exponent not below the one it started from. *)
Lemma binary_round_aux_finite (s : bool) (m e : Z) (l : location) :
  0 < m -> -1074 <= e <= 900 -> Zdigits2 m + e <= 1000 ->
  exists q e'', binary_round_aux 53 1024 s m e l = S754_finite s q e'' /\
                e <= e'' /\ -1074 <= e''.
Proof.
  intros Hm He Hd. unfold binary_round_aux.
  destruct (shr_fexp_positive m e l Hm ltac:(lia)) as [Hpos1 _].
  destruct (shr_fexp_spec m e l ltac:(lia)) as [Hm1 He1].
  destruct (shr_fexp 53 1024 m e l) as [mrs' e']. cbn [fst snd] in Hpos1, Hm1, He1.
  set (D := Zdigits2 m) in *.
  set (n1 := Z.max 0 (fexp 53 1024 (D + e) - e)) in *.
  assert (HD : 0 < D /\ m < 2 ^ D).
  { subst D. destruct m as [|p|p]; try lia. cbn [Zdigits2].
    pose proof (digits2_pos_bounds p). lia. }
  assert (Hn1 : 0 <= n1 < D).
  { split; [lia|]. destruct (Z.lt_ge_cases n1 D) as [?|Hge]; [assumption|]. exfalso.
    assert (m / 2 ^ n1 = 0); [|lia].
    apply Z.div_small. split; [lia|].
    apply Z.lt_le_trans with (2 ^ D); [lia|]. apply Z.pow_le_mono_r; lia. }
  assert (Hm1' : shr_m mrs' < 2 ^ (D - n1)).
  { rewrite Hm1. apply Z.div_lt_upper_bound; [apply Z.pow_pos_nonneg; lia|].
    rewrite <- Z.pow_add_r by lia. replace (n1 + (D - n1)) with D by lia. lia. }
  pose proof (round_nearest_even_bounds (shr_m mrs') (loc_of_shr_record mrs')) as Hr.
  set (m'' := round_nearest_even (shr_m mrs') (loc_of_shr_record mrs')) in *.
  assert (Hm'' : 0 < m'') by lia.
  assert (HD'' : Zdigits2 m'' <= D - n1 + 1).
  { apply Zdigits2_upper; [lia|]. split; [lia|].
    rewrite Z.pow_add_r by lia. change (2 ^ 1) with 2. lia. }
  assert (He' : -1074 <= e' <= 947).
  { rewrite He1. subst n1. unfold fexp, emin. lia. }
  destruct (shr_fexp_positive m'' e' loc_Exact Hm'' ltac:(lia)) as [Hpos2 _].
  destruct (shr_fexp_spec m'' e' loc_Exact ltac:(lia)) as [_ He2].
  destruct (shr_fexp 53 1024 m'' e' loc_Exact) as [mrs'' e'']. cbn [fst snd] in Hpos2, He2.
  assert (He'' : e' <= e'' <= 971).
  { rewrite He2. unfold fexp, emin. lia. }
  destruct (shr_m mrs'') as [|q|q]; try lia.
  rewrite (proj2 (Z.leb_le e'' (1024 - 53))) by lia.
  exists q, e''. split; [reflexivity|]. lia.
Qed.

(** An integer from 1 to 2^64 - 1 converts to a finite positive float. *)
Lemma f64_of_Z_finite (z : Z) :
  0 < z < 2 ^ 64 ->
  exists m e, f64_of_Z z = S754_finite false m e /\ -52 <= e.
Proof.
  intros [Hz Hlt]. destruct z as [|p|p]; try lia.
  unfold f64_of_Z, binary_normalize, binary_round.
  assert (Hdp : 1 <= Zpos (digits2_pos p) <= 64).
  { split; [lia|]. apply (Zdigits2_upper (Zpos p) 64); lia. }
  assert (Hal : exists mz ez,
             shl_align p 0 (fexp 53 1024 (Zpos (digits2_pos p) + 0)) = (mz, ez) /\
             Zpos (digits2_pos mz) + ez = Zpos (digits2_pos p) /\ -52 <= ez <= 0).
  { unfold shl_align.
    destruct (fexp 53 1024 (Zpos (digits2_pos p) + 0) - 0) as [|d|d] eqn:Hd.
    - exists p, 0. split; [reflexivity|lia].
    - exists p, 0. split; [reflexivity|lia].
    - eexists _, _. split; [reflexivity|].
      rewrite digits2_pos_iter_xO. unfold fexp, emin in *. lia. }
  destruct Hal as (mz & ez & -> & Hsum & Hez).
  destruct (binary_round_aux_finite false (Zpos mz) ez loc_Exact)
    as (q & e'' & -> & Hle & _); [lia|lia|cbn [Zdigits2]; lia|].
  exists q, e''. split; [reflexivity|lia].
Qed.

Lemma f64_of_Z_zero : f64_of_Z 0 = f64_zero.
Proof. reflexivity. Qed.

(** ** Division *)

Lemma div_core_quotient (m1 e1 m2 e2 : Z) :
  0 < m2 ->
  let e' := Z.min (fexp 53 1024 (Zdigits2 m1 + e1 - (Zdigits2 m2 + e2))) (e1 - e2) in
  let s := e1 - e2 - e' in
  exists l, SFdiv_core_binary 53 1024 m1 e1 m2 e2 = (m1 * 2 ^ s / m2, e', l).
Proof.
  intros Hm2 e' s. unfold SFdiv_core_binary. fold e'. fold s.
  assert (Hs : 0 <= s) by lia.
  assert (Hsh : match s with
                | 0 => m1
                | Zpos _ => Z.shiftl m1 s
                | Zneg _ => 0
                end = m1 * 2 ^ s).
  { destruct s as [|k|k]; [rewrite Z.pow_0_r; lia|now rewrite Z.shiftl_mul_pow2|lia]. }
  rewrite Hsh.
  destruct (Z.div_eucl (m1 * 2 ^ s) m2) as [q r] eqn:E.
  exists (new_location m2 r). f_equal. f_equal.
  unfold Z.div. now rewrite E.
Qed.

(** The quotient of two positive finite floats is never NaN and never
    negative. *)
Lemma f64_div_finite_signed (mx my : positive) (ex ey : Z) :
  signed_or_zero false (f64_div (S754_finite false mx ex) (S754_finite false my ey)).
Proof.
  unfold f64_div, SFdiv.
  destruct (div_core_quotient (Zpos mx) ex (Zpos my) ey ltac:(lia)) as [l ->].
  cbn [xorb]. apply binary_round_aux_signed.
  apply Z.div_pos; [|lia]. apply Z.mul_nonneg_nonneg; [lia|].
  apply Z.pow_nonneg; lia.
Qed.

(** It is not zero either when the two magnitudes are not too far
    apart. *)
Lemma f64_div_finite_nonzero (mx my : positive) (ex ey : Z) :
  -1021 <= Zpos (digits2_pos mx) + ex - (Zpos (digits2_pos my) + ey) ->
  -1074 <= ex - ey ->
  signed_nonzero false (f64_div (S754_finite false mx ex) (S754_finite false my ey)).
Proof.
  intros Ht He. unfold f64_div, SFdiv.
  destruct (div_core_quotient (Zpos mx) ex (Zpos my) ey ltac:(lia)) as [l ->].
  cbn [xorb Zdigits2].
  set (d1 := Zpos (digits2_pos mx)) in *. set (d2 := Zpos (digits2_pos my)) in *.
  set (e' := Z.min (fexp 53 1024 (d1 + ex - (d2 + ey))) (ex - ey)).
  pose proof (fexp_lower (d1 + ex - (d2 + ey))) as Hf.
  assert (Hfe : fexp 53 1024 (d1 + ex - (d2 + ey)) = d1 + ex - (d2 + ey) - 53)
    by (unfold fexp, emin; lia).
  assert (Hs : d2 - d1 + 53 <= ex - ey - e') by (subst e'; lia).
  pose proof (digits2_pos_bounds mx) as [Hlo1 _].
  pose proof (digits2_pos_bounds my) as [_ Hhi2].
  fold d1 in Hlo1. fold d2 in Hhi2.
  apply binary_round_aux_nonzero; [|subst e'; lia].
  apply Z.div_str_pos. split; [lia|].
  apply Z.le_trans with (2 ^ d2); [lia|].
  apply Z.le_trans with (2 ^ (d1 - 1) * 2 ^ (ex - ey - e')).
  - rewrite <- Z.pow_add_r by (subst d1; lia).
    apply Z.pow_le_mono_r; subst d1 d2; lia.
  - apply Z.mul_le_mono_nonneg_r; [apply Z.pow_nonneg; lia|assumption].
Qed.

(** ** Addition and the period *)

Lemma f64_add_finite_positive (ma mb : positive) (ea eb : Z) :
  -1074 <= ea -> -1074 <= eb ->
  signed_nonzero false (f64_add (S754_finite false ma ea) (S754_finite false mb eb)).
Proof.
  intros Ha Hb. unfold f64_add, SFadd. cbv zeta. cbn [cond_Zopp].
  destruct (shl_align ma ea (Z.min ea eb)) as [p1 x1].
  destruct (shl_align mb eb (Z.min ea eb)) as [p2 x2]. cbn [fst].
  change (Zpos p1 + Zpos p2) with (Zpos (p1 + p2)).
  unfold binary_normalize, binary_round.
  pose proof (shl_align_exponent (p1 + p2) (Z.min ea eb) ltac:(lia)) as He.
  destruct (shl_align (p1 + p2) (Z.min ea eb) _) as [mz ez]. cbn [snd] in He.
  apply binary_round_aux_nonzero; lia.
Qed.

Lemma f64_of_Z_nanoseconds : f64_of_Z 1000000000 = S754_finite false 8388608000000000 (-23).
Proof. reflexivity. Qed.

(** A positive duration is a positive number of seconds. *)
Lemma Duration_Seconds_positive (d : Z) :
  0 < d <= maxInt64 -> is_positive_float (Duration_Seconds d) = true.
Proof.
  intros [Hd Hmax]. unfold maxInt64 in Hmax.
  unfold Duration_Seconds, float64_of_int.
  rewrite Z.quot_div_nonneg, Z.rem_mod_nonneg by (unfold Second; lia).
  pose proof (Z.div_mod d Second ltac:(unfold Second; lia)) as Hdm.
  pose proof (Z.mod_pos_bound d Second ltac:(unfold Second; lia)) as Hmod.
  assert (Hdiv : 0 <= d / Second) by (apply Z.div_pos; unfold Second; lia).
  assert (Hdiv' : d / Second < 2 ^ 64).
  { apply Z.div_lt_upper_bound; unfold Second; lia. }
  unfold Second in *. set (sec := d / 1000000000) in *. set (nsec := d mod 1000000000) in *.
  clearbody sec nsec. rewrite f64_of_Z_nanoseconds.
  assert (HB : nsec = 0 \/
               (0 < nsec /\
                ((exists mb eb, f64_div (f64_of_Z nsec) (S754_finite false 8388608000000000 (-23))
                                = S754_finite false mb eb /\ -1074 <= eb) \/
                 f64_div (f64_of_Z nsec) (S754_finite false 8388608000000000 (-23))
                 = S754_infinity false))).
  { destruct (Z.eq_dec nsec 0) as [?|Hne]; [now left|]. right. split; [lia|].
    destruct (f64_of_Z_finite nsec ltac:(lia)) as (m1 & e1 & -> & He1).
    pose proof (f64_div_finite_signed m1 8388608000000000 e1 (-23)) as Hs.
    pose proof (f64_div_finite_nonzero m1 8388608000000000 e1 (-23)) as Hn.
    change (Zpos (digits2_pos 8388608000000000)) with 53 in Hn.
    specialize (Hn ltac:(lia) ltac:(lia)).
    destruct (f64_div (S754_finite false m1 e1) (S754_finite false 8388608000000000 (-23)))
      as [s|s| |s mb eb]; cbn in Hs, Hn; try contradiction.
    - right. now subst.
    - left. exists mb, eb. destruct Hs as [-> ?]. split; [reflexivity|assumption]. }
  destruct (Z.eq_dec sec 0) as [Hs0|Hs0].
  - rewrite Hs0. destruct HB as [Hn0|(Hn & [(mb & eb & -> & _)| ->])]; [lia| |]; reflexivity.
  - destruct (f64_of_Z_finite sec ltac:(lia)) as (ma & ea & -> & Hea).
    destruct HB as [Hn0|(Hn & [(mb & eb & -> & Heb)| ->])].
    + rewrite Hn0. reflexivity.
    + pose proof (f64_add_finite_positive ma mb ea eb ltac:(lia) Heb) as Hp.
      destruct (f64_add (S754_finite false ma ea) (S754_finite false mb eb))
        as [s|s| |s m e]; cbn in Hp; try contradiction; now subst.
    + reflexivity.
Qed.

Lemma Time_Sub_positive (t u : Z) : u < t -> 0 < Time_Sub t u <= maxInt64.
Proof.
  intros Hlt. unfold Time_Sub, minInt64, maxInt64.
  destruct (Z.ltb_spec (t - u) (- 2 ^ 63)); [lia|].
  destruct (Z.ltb_spec (2 ^ 63 - 1) (t - u)); lia.
Qed.

Lemma period_of_positive (prev rec : record) :
  timestamp prev < timestamp rec -> is_positive_float (period_of prev rec) = true.
Proof.
  intros Hlt. unfold period_of. apply Duration_Seconds_positive.
  now apply Time_Sub_positive.
Qed.

Lemma f64_div_zero_by_positive (p : float64) :
  is_positive_float p = true -> f64_div f64_zero p = f64_zero.
Proof. destruct p as [s|[|]| |[|] m e]; cbn; intros H; try discriminate; reflexivity. Qed.

Lemma sub64_range (a b : Z) : 0 <= sub64 a b < 2 ^ 64.
Proof. apply (wrap64_range (a - b)). Qed.

(** X14: whenever the current timestamp is later than the previous one,
    the period is a strictly positive number of seconds and the packet
    rate is neither NaN nor negative, whatever the two packet counts
    are. *)
Theorem rate_defined_when_time_advances (prev rec : record) :
  timestamp prev < timestamp rec ->
  is_positive_float (period_of prev rec) = true /\
  is_nonnegative_float (pps_of prev rec) = true.
Proof.
  intros Hlt. pose proof (period_of_positive prev rec Hlt) as Hp.
  split; [exact Hp|]. unfold pps_of, float64_of_int.
  pose proof (sub64_range (rxPackets (total rec)) (rxPackets (total prev))) as Hd.
  set (delta := sub64 (rxPackets (total rec)) (rxPackets (total prev))) in *.
  destruct (Z.eq_dec delta 0) as [->|Hne].
  - rewrite f64_of_Z_zero, f64_div_zero_by_positive by assumption. reflexivity.
  - destruct (f64_of_Z_finite delta ltac:(lia)) as (m & e & -> & _).
    destruct (period_of prev rec) as [s|[|]| |[|] mp ep]; try discriminate Hp.
    + reflexivity.
    + pose proof (f64_div_finite_signed m mp e ep) as Hs.
      destruct (f64_div (S754_finite false m e) (S754_finite false mp ep))
        as [s|s| |s mq eq]; cbn in Hs; try contradiction.
      * now subst.
      * now subst.
      * destruct Hs as [-> _]. reflexivity.
Qed.

Lemma rate_defined_when_time_advances_witness :
  is_positive_float (period_of (Record_ 0 (Datarec 7 0)) (Record_ 1 (Datarec 3 0))) = true /\
  is_nonnegative_float (pps_of (Record_ 0 (Datarec 7 0)) (Record_ 1 (Datarec 3 0))) = true.
Proof.
  apply (rate_defined_when_time_advances (Record_ 0 (Datarec 7 0)) (Record_ 1 (Datarec 3 0))).
  simpl. lia.
Defined.

Lemma sub64_diag (a : Z) : sub64 a a = 0.
Proof. unfold sub64, wrap64. now rewrite Z.sub_diag. Qed.

(** X15: a slot whose counters did not move between two snapshots taken
    at different times shows a rate of zero: the packet rate cell is
    "0 pps" and the speed cell "0 Kbits/s", both right-aligned. *)
Theorem idle_slot_shows_zero (prev rec : record) :
  timestamp prev < timestamp rec ->
  total rec = total prev ->
  pps_of prev rec = f64_zero /\
  PPs (calcStat prev rec) = "         0 pps"%string /\
  BPs (calcStat prev rec) = "     0 Kbits/s"%string.
Proof.
  intros Hlt Heq. pose proof (period_of_positive prev rec Hlt) as Hp.
  assert (Hpps : pps_of prev rec = f64_zero).
  { unfold pps_of, float64_of_int. rewrite Heq, sub64_diag, f64_of_Z_zero.
    now apply f64_div_zero_by_positive. }
  assert (Hk : kbps_of (bytes_of prev rec) (period_of prev rec) = f64_zero).
  { unfold kbps_of, bytes_of, float64_of_int. rewrite Heq, sub64_diag.
    change (f64_mul (f64_of_Z 0) (f64_of_Z 8)) with f64_zero.
    rewrite f64_div_zero_by_positive by assumption. reflexivity. }
  split; [exact Hpps|]. split.
  - cbn [calcStat PPs]. rewrite Hpps. reflexivity.
  - cbn [calcStat BPs]. unfold calculateSpeed. rewrite Hk. reflexivity.
Qed.

Lemma idle_slot_shows_zero_witness :
  PPs (calcStat (Record_ 0 (Datarec 42 4200)) (Record_ 1500000000 (Datarec 42 4200)))
    = "         0 pps"%string.
Proof.
  apply (idle_slot_shows_zero (Record_ 0 (Datarec 42 4200))
                              (Record_ 1500000000 (Datarec 42 4200)));
    [simpl; lia|reflexivity].
Defined.

Lemma f64_of_Z_eight : f64_of_Z 8 = S754_finite false 4503599627370496 (-49).
Proof. reflexivity. Qed.

(** X16: when the two timestamps coincide the speed cell is computed by
    the same division by zero as the packet rate: it reads "NaN Mbits/s"
    if the byte counts are equal and "+Inf Mbits/s" if they differ; the
    comparison with 1000 fails for both, so the unit is Mbits/s. *)
Theorem zero_period_speed (prev rec : record) :
  is_uint64 (rxBytes (total prev)) ->
  is_uint64 (rxBytes (total rec)) ->
  timestamp rec = timestamp prev ->
  BPs (calcStat prev rec) =
    if decide (rxBytes (total rec) = rxBytes (total prev))
    then "   NaN Mbits/s"%string else "  +Inf Mbits/s"%string.
Proof.
  intros Hp Hr Hts. cbn [calcStat BPs]. unfold calculateSpeed.
  rewrite (period_of_same prev rec Hts).
  destruct (decide (rxBytes (total rec) = rxBytes (total prev))) as [Heq|Hne].
  - unfold bytes_of, float64_of_int. rewrite Heq, sub64_diag. reflexivity.
  - assert (Hk : kbps_of (bytes_of prev rec) f64_zero = f64_pinf).
    { unfold kbps_of, bytes_of, float64_of_int.
      pose proof (sub64_range (rxBytes (total rec)) (rxBytes (total prev))) as Hd.
      assert (Hnz : sub64 (rxBytes (total rec)) (rxBytes (total prev)) <> 0).
      { destruct (Z.lt_ge_cases (rxBytes (total rec)) (rxBytes (total prev))).
        - rewrite sub64_wrap by assumption. unfold is_uint64, uint64_mod in *. lia.
        - rewrite sub64_no_wrap by (try assumption; lia). lia. }
      destruct (f64_of_Z_finite (sub64 (rxBytes (total rec)) (rxBytes (total prev)))
                  ltac:(lia)) as (m & e & -> & He).
      rewrite f64_of_Z_eight.
      assert (Hm : signed_nonzero false
                     (f64_mul (S754_finite false m e)
                              (S754_finite false 4503599627370496 (-49)))).
      { unfold f64_mul, SFmul. cbn [xorb]. apply binary_round_aux_nonzero; lia. }
      rewrite (f64_div_by_zero _ Hm). reflexivity. }
    rewrite Hk. reflexivity.
Qed.

Lemma zero_period_speed_witness :
  BPs (calcStat (Record_ 7 (Datarec 0 10)) (Record_ 7 (Datarec 0 90)))
    = "  +Inf Mbits/s"%string.
Proof.
  apply (zero_period_speed (Record_ 7 (Datarec 0 10)) (Record_ 7 (Datarec 0 90)));
    cbn; unfold is_uint64, uint64_mod; try lia; reflexivity.
Defined.

(** ** Rounding errors *)

Lemma Zdigits2_pos_eq (x k : Z) : 2 ^ (k - 1) <= x < 2 ^ k -> 0 < k -> Zdigits2 x = k.
Proof.
  intros [Hlo Hhi] Hk.
  assert (Hx : 0 < x) by (pose proof (Z.pow_pos_nonneg 2 (k - 1)); lia).
  destruct x as [|p|p]; try lia. cbn [Zdigits2].
  pose proof (digits2_pos_bounds p) as [Hl Hh].
  set (D := Zpos (digits2_pos p)) in *.
  destruct (Z.lt_trichotomy D k) as [Hlt|[Heq|Hgt]]; [exfalso|assumption|exfalso].
  - assert (2 ^ D <= 2 ^ (k - 1)) by (apply Z.pow_le_mono_r; lia). lia.
  - assert (2 ^ k <= 2 ^ (D - 1)) by (apply Z.pow_le_mono_r; lia). lia.
Qed.

Lemma Zdigits2_bounds (x : Z) : 0 < x -> 2 ^ (Zdigits2 x - 1) <= x < 2 ^ Zdigits2 x.
Proof. intros Hx. destruct x as [|p|p]; try lia. apply digits2_pos_bounds. Qed.

Lemma Zdigits2_lower (x k : Z) : 2 ^ (k - 1) <= x -> 0 < k -> k <= Zdigits2 x.
Proof.
  intros Hlo Hk.
  assert (Hx : 0 < x) by (pose proof (Z.pow_pos_nonneg 2 (k - 1)); lia).
  pose proof (Zdigits2_bounds x Hx) as [_ Hh].
  destruct (Z.le_gt_cases k (Zdigits2 x)) as [?|Hgt]; [assumption|exfalso].
  assert (2 ^ Zdigits2 x <= 2 ^ (k - 1)).
  { apply Z.pow_le_mono_r; [lia|]. lia. }
  lia.
Qed.

(** Rounding a mantissa of at least 53 bits in the normal range: the
    result is a normal float one unit in the last place around the
    mantissa it started from. *)
Lemma binary_round_aux_normal (m e : Z) (l : location) :
  2 ^ 52 <= m -> -1074 <= Zdigits2 m + e - 53 -> Zdigits2 m + e <= 1023 ->
  exists mf ef,
    binary_round_aux 53 1024 false m e l = S754_finite false mf ef /\
    2 ^ 52 <= Zpos mf < 2 ^ 53 /\
    Zdigits2 m + e - 53 <= ef <= Zdigits2 m + e - 52 /\
    e <= ef /\
    (Zpos mf - 1) * 2 ^ (ef - e) <= m /\ m + 1 <= (Zpos mf + 1) * 2 ^ (ef - e).
Proof.
  intros Hm Hlo Hhi. unfold binary_round_aux.
  assert (Hm0 : 0 < m) by lia.
  pose proof (Zdigits2_bounds m Hm0) as HD.
  pose proof (Zdigits2_lower m 53 ltac:(simpl; lia) ltac:(lia)) as HD53.
  destruct (shr_fexp_spec m e l ltac:(lia)) as [Hm1 He1].
  destruct (shr_fexp 53 1024 m e l) as [mrs' e']. cbn [fst snd] in Hm1, He1.
  set (D := Zdigits2 m) in *.
  assert (Hn1 : Z.max 0 (fexp 53 1024 (D + e) - e) = D - 53) by (unfold fexp, emin; lia).
  rewrite Hn1 in Hm1, He1.
  set (P := 2 ^ (D - 53)) in *.
  assert (HP : 0 < P) by (apply Z.pow_pos_nonneg; lia).
  assert (HDP : 2 ^ D = 2 ^ 53 * P).
  { subst P. rewrite <- Z.pow_add_r by lia. f_equal. lia. }
  assert (HDP' : 2 ^ (D - 1) = 2 ^ 52 * P).
  { subst P. rewrite <- Z.pow_add_r by lia. f_equal. lia. }
  pose proof (Z.mul_div_le m P HP) as Hfl.
  pose proof (Z.mul_succ_div_gt m P HP) as Hfu.
  set (m1 := shr_m mrs') in *. rewrite <- Hm1 in Hfl, Hfu.
  assert (Hm1r : 2 ^ 52 <= m1 < 2 ^ 53) by nia.
  pose proof (round_nearest_even_bounds m1 (loc_of_shr_record mrs')) as Hr.
  set (m'' := round_nearest_even m1 (loc_of_shr_record mrs')) in *.
  destruct (shr_fexp_spec m'' e' loc_Exact ltac:(lia)) as [Hm2 He2].
  destruct (shr_fexp 53 1024 m'' e' loc_Exact) as [mrs'' e'']. cbn [fst snd] in Hm2, He2.
  destruct (Z.eq_dec m'' (2 ^ 53)) as [Hc|Hc].
  - assert (Hd2 : Zdigits2 m'' = 54) by (rewrite Hc; reflexivity).
    rewrite Hd2 in Hm2, He2.
    assert (Hn2 : Z.max 0 (fexp 53 1024 (54 + e') - e') = 1) by (unfold fexp, emin; lia).
    rewrite Hn2 in Hm2, He2. rewrite Hc in Hm2. change (2 ^ 53 / 2 ^ 1) with (2 ^ 52) in Hm2.
    rewrite Hm2. change (2 ^ 52) with (Zpos (2 ^ 52)%positive) at 1.
    rewrite (proj2 (Z.leb_le e'' (1024 - 53))) by lia.
    exists (2 ^ 52)%positive, e''. split; [reflexivity|].
    replace (e'' - e) with (D - 53 + 1) by lia.
    rewrite Z.pow_add_r by lia. fold P. change (2 ^ 1) with 2.
    repeat split; try lia; nia.
  - assert (Hd2 : Zdigits2 m'' = 53) by (apply Zdigits2_pos_eq; simpl; lia).
    rewrite Hd2 in Hm2, He2.
    assert (Hn2 : Z.max 0 (fexp 53 1024 (53 + e') - e') = 0) by (unfold fexp, emin; lia).
    rewrite Hn2 in Hm2, He2. rewrite Z.pow_0_r, Z.div_1_r in Hm2.
    rewrite Hm2. destruct m'' as [|q|q] eqn:Eq; try lia.
    rewrite (proj2 (Z.leb_le e'' (1024 - 53))) by lia.
    exists q, e''. split; [reflexivity|].
    replace (e'' - e) with (D - 53) by lia. fold P.
    repeat split; try lia; nia.
Qed.

Lemma pow2_pos (e : Z) : (0 < 2 ^ e)%Q.
Proof. apply Qpower_0_lt. reflexivity. Qed.

Lemma pow2_split (e ef : Z) : e <= ef -> (2 ^ ef == 2 ^ e * inject_Z (2 ^ (ef - e)))%Q.
Proof.
  intros H. rewrite Zpower_Qpower by lia. change (inject_Z 2) with 2%Q.
  rewrite <- Qpower_plus by discriminate.
  replace (e + (ef - e)) with ef by lia. reflexivity.
Qed.

Lemma normal_float_value (lo hi : Z) (x : float64) :
  normal_float lo hi x -> (0 < float_value x)%Q.
Proof.
  intros (m & e & -> & Hm & He). cbn [float_value cond_Zopp].
  apply Qmult_lt_0_compat; [|apply pow2_pos].
  change 0%Q with (inject_Z 0). rewrite <- Zlt_Qlt. lia.
Qed.

(** A number bracketed within one unit in the last place of a normal
    float is near it. *)
Lemma ulp_bracket_near (mf : positive) (ef : Z) (v : Q) :
  2 ^ 52 <= Zpos mf ->
  ((inject_Z (Zpos mf) - 1) * 2 ^ ef <= v)%Q ->
  (v <= (inject_Z (Zpos mf) + 1) * 2 ^ ef)%Q ->
  near rounding_factor (inject_Z (Zpos mf) * 2 ^ ef) v.
Proof.
  intros Hm Hlo Hhi. pose proof (pow2_pos ef) as Hw.
  assert (HM : (4503599627370496 <= inject_Z (Zpos mf))%Q).
  { change 4503599627370496%Q with (inject_Z (2 ^ 52)). now rewrite <- Zle_Qle. }
  set (w := (2 ^ ef)%Q) in *. set (M := inject_Z (Zpos mf)) in *.
  clearbody w M. unfold near, rounding_factor.
  assert (HMw : (4503599627370496 * w <= M * w)%Q) by nra.
  split; nra.
Qed.

Lemma binary_round_aux_near (m e : Z) (l : location) (v : Q) :
  2 ^ 52 <= m -> -1074 <= Zdigits2 m + e - 53 -> Zdigits2 m + e <= 1023 ->
  (inject_Z m * 2 ^ e <= v)%Q -> (v <= (inject_Z m + 1) * 2 ^ e)%Q ->
  exists mf ef,
    binary_round_aux 53 1024 false m e l = S754_finite false mf ef /\
    2 ^ 52 <= Zpos mf < 2 ^ 53 /\
    Zdigits2 m + e - 53 <= ef <= Zdigits2 m + e - 52 /\
    near rounding_factor (inject_Z (Zpos mf) * 2 ^ ef) v.
Proof.
  intros Hm Hlo Hhi Hv1 Hv2.
  destruct (binary_round_aux_normal m e l Hm Hlo Hhi)
    as (mf & ef & Heq & Hmf & Hef & Hle & Hb1 & Hb2).
  exists mf, ef. split; [assumption|]. split; [assumption|]. split; [lia|].
  apply ulp_bracket_near; [lia| |].
  - rewrite (pow2_split e ef Hle).
    replace (Zpos mf - 1) with (Zpos mf + -1) in Hb1 by lia. rewrite Zle_Qle in Hb1.
    rewrite inject_Z_mult, inject_Z_plus in Hb1.
    change (inject_Z (-1)) with (-1)%Q in Hb1.
    pose proof (pow2_pos e) as Hw.
    set (w := (2 ^ e)%Q) in *. set (k := inject_Z (2 ^ (ef - e))) in *.
    set (M := inject_Z (Zpos mf)) in *. set (x := inject_Z m) in *.
    clearbody w k M x.
    assert (H : ((M + -1) * k * w <= x * w)%Q) by (apply Qmult_le_compat_r; lra).
    lra.
  - rewrite (pow2_split e ef Hle).
    rewrite Zle_Qle in Hb2.
    rewrite inject_Z_mult, !inject_Z_plus in Hb2.
    pose proof (pow2_pos e) as Hw.
    set (w := (2 ^ e)%Q) in *. set (k := inject_Z (2 ^ (ef - e))) in *.
    set (M := inject_Z (Zpos mf)) in *. set (x := inject_Z m) in *.
    change (inject_Z 1) with 1%Q in Hb2.
    clearbody w k M x.
    assert (H : ((x + 1) * w <= (M + 1) * k * w)%Q) by (apply Qmult_le_compat_r; lra).
    lra.
Qed.

Lemma iter_xO_value (p d : positive) : Zpos (Pos.iter xO p d) = Zpos p * 2 ^ Zpos d.
Proof.
  change (Pos.iter xO p d) with (shift_pos d p). rewrite shift_pos_correct.
  change (Z.pow_pos 2 d) with (2 ^ Zpos d). lia.
Qed.

(** Normalising a positive integer mantissa whose value lies in the
    normal range rounds it once. *)
Lemma binary_normalize_near (p : positive) (e : Z) :
  -1074 <= Zpos (digits2_pos p) + e - 53 -> Zpos (digits2_pos p) + e <= 1023 ->
  rounded (Zpos (digits2_pos p) + e - 53) (Zpos (digits2_pos p) + e - 52)
          (binary_normalize 53 1024 (Zpos p) e false)
          (inject_Z (Zpos p) * 2 ^ e).
Proof.
  intros Hlo Hhi. cbn [binary_normalize]. unfold binary_round.
  pose proof (digits2_pos_bounds p) as [HDl HDh].
  set (D := Zpos (digits2_pos p)) in *.
  assert (Hf : fexp 53 1024 (D + e) = D + e - 53) by (unfold fexp, emin; lia).
  rewrite Hf. unfold shl_align. replace (D + e - 53 - e) with (D - 53) by lia.
  assert (Hfin : forall (mz : positive) (ez : Z),
             Zdigits2 (Zpos mz) + ez = D + e -> 2 ^ 52 <= Zpos mz ->
             (inject_Z (Zpos mz) * 2 ^ ez == inject_Z (Zpos p) * 2 ^ e)%Q ->
             rounded (D + e - 53) (D + e - 52)
                     (binary_round_aux 53 1024 false (Zpos mz) ez loc_Exact)
                     (inject_Z (Zpos p) * 2 ^ e)).
  { intros mz ez Hd Hmz Hv.
    destruct (binary_round_aux_near (Zpos mz) ez loc_Exact (inject_Z (Zpos p) * 2 ^ e))
      as (mf & ef & -> & Hmf & Hef & Hn); try lia.
    - rewrite Hv. apply Qle_refl.
    - rewrite <- Hv. pose proof (pow2_pos ez). nra.
    - split; [exists mf, ef; split; [reflexivity|split; [assumption|lia]]|].
      exact Hn. }
  destruct (D - 53) as [|k|k] eqn:Hk.
  - apply Hfin; [cbn [Zdigits2]; fold D; lia| |reflexivity].
    apply Z.le_trans with (2 ^ (D - 1)); [|assumption]. apply Z.pow_le_mono_r; lia.
  - apply Hfin; [cbn [Zdigits2]; fold D; lia| |reflexivity].
    apply Z.le_trans with (2 ^ (D - 1)); [|assumption]. apply Z.pow_le_mono_r; lia.
  - assert (HkD : Zpos k = 53 - D) by lia.
    apply Hfin.
    + cbn [Zdigits2]. rewrite digits2_pos_iter_xO. fold D. lia.
    + rewrite iter_xO_value, HkD.
      apply Z.le_trans with (2 ^ (D - 1) * 2 ^ (53 - D)).
      * rewrite <- Z.pow_add_r by lia. apply Z.pow_le_mono_r; lia.
      * apply Z.mul_le_mono_nonneg_r; [apply Z.pow_nonneg; lia|assumption].
    + rewrite iter_xO_value, HkD, inject_Z_mult.
      rewrite (pow2_split (D + e - 53) e) by lia.
      replace (e - (D + e - 53)) with (53 - D) by lia. ring.
Qed.

(** [float64(z)] for an integer from 1 to 2^64 - 1. *)
Lemma f64_of_Z_near (z : Z) :
  0 < z < 2 ^ 64 -> rounded (-52) 12 (f64_of_Z z) (inject_Z z).
Proof.
  intros [Hz Hlt]. destruct z as [|p|p]; try lia.
  assert (Hdp : 1 <= Zpos (digits2_pos p) <= 64).
  { split; [lia|]. apply (Zdigits2_upper (Zpos p) 64); lia. }
  destruct (binary_normalize_near p 0 ltac:(lia) ltac:(lia)) as [(m & e & Heq & Hm & He) Hn].
  unfold f64_of_Z. split.
  - exists m, e. split; [assumption|]. split; [assumption|lia].
  - unfold near in *. rewrite Qpower_0_r, Qmult_1_r in Hn. exact Hn.
Qed.

Lemma inject_Z_pos (z : Z) : 0 < z -> (0 < inject_Z z)%Q.
Proof. intros H. change 0%Q with (inject_Z 0). now rewrite <- Zlt_Qlt. Qed.

(** The quotient of two normal floats is rounded once. *)
Lemma f64_div_near (lo1 hi1 lo2 hi2 : Z) (x y : float64) :
  normal_float lo1 hi1 x -> normal_float lo2 hi2 y ->
  -1074 <= lo1 - hi2 - 53 -> hi1 - lo2 <= 1022 ->
  normal_float (lo1 - hi2 - 53) (hi1 - lo2 - 51) (f64_div x y) /\
  near rounding_factor (float_value (f64_div x y) * float_value y) (float_value x).
Proof.
  intros (m1 & e1 & -> & Hm1 & He1) (m2 & e2 & -> & Hm2 & He2) Hlo Hhi.
  unfold f64_div, SFdiv.
  destruct (div_core_quotient (Zpos m1) e1 (Zpos m2) e2 ltac:(lia)) as [l ->].
  cbn [xorb].
  rewrite (Zdigits2_pos_eq (Zpos m1) 53), (Zdigits2_pos_eq (Zpos m2) 53) by (simpl; lia).
  assert (Hf : fexp 53 1024 (53 + e1 - (53 + e2)) = e1 - e2 - 53) by (unfold fexp, emin; lia).
  rewrite Hf. replace (Z.min (e1 - e2 - 53) (e1 - e2)) with (e1 - e2 - 53) by lia.
  replace (e1 - e2 - (e1 - e2 - 53)) with 53 by lia.
  set (q := Zpos m1 * 2 ^ 53 / Zpos m2).
  pose proof (Z.mul_div_le (Zpos m1 * 2 ^ 53) (Zpos m2) ltac:(lia)) as Hql.
  pose proof (Z.mul_succ_div_gt (Zpos m1 * 2 ^ 53) (Zpos m2) ltac:(lia)) as Hqu.
  fold q in Hql, Hqu.
  assert (Hq : 2 ^ 52 <= q < 2 ^ 54) by nia.
  assert (HDq : 53 <= Zdigits2 q <= 54).
  { split; [apply Zdigits2_lower; simpl; lia|apply Zdigits2_upper; lia]. }
  set (e' := e1 - e2 - 53) in *.
  pose proof (pow2_pos e') as Hw'. pose proof (pow2_pos e2) as Hw2.
  assert (Hpow : (2 ^ e1 == 2 ^ e' * 2 ^ e2 * inject_Z (2 ^ 53))%Q).
  { rewrite Zpower_Qpower by lia. change (inject_Z 2) with 2%Q.
    rewrite <- !Qpower_plus by discriminate.
    replace (e' + e2 + 53) with e1 by (subst e'; lia). reflexivity. }
  rewrite Zle_Qle, inject_Z_mult, inject_Z_mult in Hql.
  apply Z.lt_le_incl in Hqu. unfold Z.succ in Hqu.
  rewrite Zle_Qle, !inject_Z_mult, inject_Z_plus in Hqu.
  change (inject_Z 1) with 1%Q in Hqu.
  pose proof (inject_Z_pos (Zpos m2) ltac:(lia)) as HM2.
  set (V1 := (inject_Z (Zpos m1) * 2 ^ e1)%Q).
  set (V2 := (inject_Z (Zpos m2) * 2 ^ e2)%Q).
  assert (HV2 : (0 < V2)%Q) by (apply Qmult_lt_0_compat; assumption).
  assert (HT : (V1 / V2 * V2 == V1)%Q) by (field; lra).
  destruct (binary_round_aux_near q e' l (V1 / V2)%Q)
    as (mf & ef & -> & Hmf & Hef & Hn); try lia.
  - apply Qle_shift_div_l; [assumption|]. subst V1 V2. rewrite Hpow.
    set (Q1 := inject_Z q) in *. set (M1 := inject_Z (Zpos m1)) in *.
    set (M2 := inject_Z (Zpos m2)) in *. set (K := inject_Z (2 ^ 53)) in *.
    set (a := (2 ^ e')%Q) in *. set (b := (2 ^ e2)%Q) in *.
    clearbody Q1 M1 M2 K a b.
    assert (Hab : (0 < a * b)%Q) by (apply Qmult_lt_0_compat; assumption).
    assert (H : (M2 * Q1 * (a * b) <= M1 * K * (a * b))%Q)
      by (apply Qmult_le_compat_r; lra).
    lra.
  - apply Qle_shift_div_r; [assumption|]. subst V1 V2. rewrite Hpow.
    set (Q1 := inject_Z q) in *. set (M1 := inject_Z (Zpos m1)) in *.
    set (M2 := inject_Z (Zpos m2)) in *. set (K := inject_Z (2 ^ 53)) in *.
    set (a := (2 ^ e')%Q) in *. set (b := (2 ^ e2)%Q) in *.
    clearbody Q1 M1 M2 K a b.
    assert (Hab : (0 < a * b)%Q) by (apply Qmult_lt_0_compat; assumption).
    assert (H : (M1 * K * (a * b) <= M2 * (Q1 + 1) * (a * b))%Q)
      by (apply Qmult_le_compat_r; lra).
    lra.
  - split.
    + exists mf, ef. split; [reflexivity|]. split; [assumption|lia].
    + cbn [float_value cond_Zopp]. fold V1 V2.
      set (R := (inject_Z (Zpos mf) * 2 ^ ef)%Q) in *.
      set (T := (V1 / V2)%Q) in *. destruct Hn as [Hn1 Hn2].
      clearbody R T V1 V2. unfold near, rounding_factor in *.
      assert (H1 : (R * V2 <= T * (4503599627370496 # 4503599627370495) * V2)%Q)
        by (apply Qmult_le_compat_r; lra).
      assert (H2 : (T * V2 <= R * (4503599627370496 # 4503599627370495) * V2)%Q)
        by (apply Qmult_le_compat_r; lra).
      split; lra.
Qed.

Lemma shl_align_value (m : positive) (e ez : Z) :
  ez <= e -> Zpos (fst (shl_align m e ez)) = Zpos m * 2 ^ (e - ez).
Proof.
  intros H. unfold shl_align.
  destruct (ez - e) as [|k|k] eqn:Hk; cbn [fst]; try lia.
  - replace (e - ez) with 0 by lia. lia.
  - rewrite iter_xO_value. f_equal. f_equal. lia.
Qed.

(** The sum of two normal floats is rounded once. *)
Lemma f64_add_near (lo1 hi1 lo2 hi2 : Z) (x y : float64) :
  normal_float lo1 hi1 x -> normal_float lo2 hi2 y ->
  -1074 <= lo1 -> -1074 <= lo2 -> hi1 <= 969 -> hi2 <= 969 ->
  rounded (Z.max lo1 lo2) (Z.max hi1 hi2 + 2) (f64_add x y)
          (float_value x + float_value y).
Proof.
  intros (m1 & e1 & -> & Hm1 & He1) (m2 & e2 & -> & Hm2 & He2) Hl1 Hl2 Hh1 Hh2.
  unfold f64_add, SFadd. cbv zeta. cbn [cond_Zopp float_value].
  set (ez := Z.min e1 e2).
  pose proof (shl_align_value m1 e1 ez ltac:(subst ez; lia)) as Ha.
  pose proof (shl_align_value m2 e2 ez ltac:(subst ez; lia)) as Hb.
  destruct (shl_align m1 e1 ez) as [p1 x1]. destruct (shl_align m2 e2 ez) as [p2 x2].
  cbn [fst] in *. change (Zpos p1 + Zpos p2) with (Zpos (p1 + p2)).
  set (a := e1 - ez) in *. set (b := e2 - ez) in *.
  set (mx := Z.max a b).
  assert (Hab : 0 <= a /\ 0 <= b /\ (a = mx /\ b <= mx \/ b = mx /\ a <= mx))
    by (subst a b mx ez; lia).
  assert (Hpa : 0 < 2 ^ a) by (apply Z.pow_pos_nonneg; lia).
  assert (Hpb : 0 < 2 ^ b) by (apply Z.pow_pos_nonneg; lia).
  assert (Hpa' : 2 ^ a <= 2 ^ mx) by (apply Z.pow_le_mono_r; lia).
  assert (Hpb' : 2 ^ b <= 2 ^ mx) by (apply Z.pow_le_mono_r; lia).
  assert (Hmx : 2 ^ a = 2 ^ mx \/ 2 ^ b = 2 ^ mx).
  { destruct Hab as (_ & _ & [[E _]|[E _]]); rewrite E; [now left|now right]. }
  assert (HM : 2 ^ (53 + mx - 1) <= Zpos (p1 + p2) < 2 ^ (54 + mx)).
  { replace (53 + mx - 1) with (52 + mx) by lia.
    rewrite !Z.pow_add_r by lia. rewrite Pos2Z.inj_add, Ha, Hb.
    set (A := 2 ^ a) in *. set (B := 2 ^ b) in *. set (X := 2 ^ mx) in *.
    clearbody A B X. split; [|nia].
    destruct Hmx as [<-|<-]; nia. }
  assert (HD : 53 + mx <= Zdigits2 (Zpos (p1 + p2)) <= 54 + mx).
  { split; [apply Zdigits2_lower; lia|apply Zdigits2_upper; lia]. }
  cbn [Zdigits2] in HD.
  assert (Hmxe : mx + ez = Z.max e1 e2) by (subst mx a b ez; lia).
  destruct (binary_normalize_near (p1 + p2) ez ltac:(lia) ltac:(lia))
    as [(m & e & Heq & Hm & He) Hn].
  split.
  - exists m, e. split; [assumption|]. split; [assumption|lia].
  - assert (Hv : (inject_Z (Zpos (p1 + p2)) * 2 ^ ez ==
                  inject_Z (Zpos m1) * 2 ^ e1 + inject_Z (Zpos m2) * 2 ^ e2)%Q).
    { rewrite Pos2Z.inj_add, inject_Z_plus, Ha, Hb, !inject_Z_mult.
      rewrite (pow2_split ez e1), (pow2_split ez e2) by (subst ez; lia).
      fold a b. ring. }
    unfold near in *. rewrite <- Hv. exact Hn.
Qed.

(** ** Accumulated rounding *)

Lemma rounding_factor_pos : (1 <= rounding_factor)%Q.
Proof. unfold rounding_factor. lra. Qed.

#[local] Instance near_comp : Proper (Qeq ==> Qeq ==> Qeq ==> iff) near.
Proof. intros c c' Hc x x' Hx y y' Hy. unfold near. now rewrite Hc, Hx, Hy. Qed.

Lemma per_second (x : Q) : (x / 1000000000 == x * (1 # 1000000000))%Q.
Proof. reflexivity. Qed.

Lemma near_trans (c1 c2 x y z : Q) :
  (0 <= c1)%Q -> (0 <= c2)%Q -> near c1 x y -> near c2 y z -> near (c1 * c2) x z.
Proof.
  intros H1 H2 [Ha Hb] [Hc Hd]. split.
  - assert (H : (y * c1 <= z * c2 * c1)%Q) by (apply Qmult_le_compat_r; assumption). lra.
  - assert (H : (y * c2 <= x * c1 * c2)%Q) by (apply Qmult_le_compat_r; assumption). lra.
Qed.

Lemma near_sym (c x y : Q) : near c x y -> near c y x.
Proof. intros [H1 H2]. split; assumption. Qed.

Lemma near_add (c x y x' y' : Q) : near c x x' -> near c y y' -> near c (x + y) (x' + y').
Proof. intros [H1 H2] [H3 H4]. split; lra. Qed.

Lemma near_weaken (c c' x y : Q) :
  (0 <= x)%Q -> (0 <= y)%Q -> (c <= c')%Q -> near c x y -> near c' x y.
Proof.
  intros Hx Hy Hc [H1 H2]. split.
  - assert (H : (c * y <= c' * y)%Q) by (apply Qmult_le_compat_r; assumption). lra.
  - assert (H : (c * x <= c' * x)%Q) by (apply Qmult_le_compat_r; assumption). lra.
Qed.

Lemma near_scale (c k x y : Q) : (0 <= k)%Q -> near c x y -> near c (k * x) (k * y).
Proof.
  intros Hk [H1 H2]. split.
  - assert (H : (x * k <= y * c * k)%Q) by (apply Qmult_le_compat_r; assumption). lra.
  - assert (H : (y * k <= x * c * k)%Q) by (apply Qmult_le_compat_r; assumption). lra.
Qed.

Lemma near_refl (x : Q) : (0 <= x)%Q -> near rounding_factor x x.
Proof.
  intros Hx. unfold near, rounding_factor.
  assert (H : (1 * x <= (4503599627370496 # 4503599627370495) * x)%Q)
    by (apply Qmult_le_compat_r; [lra|assumption]).
  split; lra.
Qed.

Lemma f64_of_Z_nanoseconds_normal :
  normal_float (-23) (-23) (S754_finite false 8388608000000000 (-23)).
Proof. exists 8388608000000000%positive, (-23). split; [reflexivity|]. simpl. lia. Qed.

Lemma f64_of_Z_nanoseconds_value :
  (float_value (S754_finite false 8388608000000000 (-23)) == 1000000000)%Q.
Proof. reflexivity. Qed.

(** The number of seconds of a positive duration of [d] nanoseconds is
    [d / 10^9] up to three roundings. *)
Lemma Duration_Seconds_near (d : Z) :
  0 < d <= maxInt64 ->
  normal_float (-82) 14 (Duration_Seconds d) /\
  near (rounding_factor * rounding_factor * rounding_factor)
       (float_value (Duration_Seconds d)) (inject_Z d / 1000000000).
Proof.
  intros [Hd Hmax]. unfold maxInt64 in Hmax.
  unfold Duration_Seconds, float64_of_int.
  rewrite Z.quot_div_nonneg, Z.rem_mod_nonneg by (unfold Second; lia).
  pose proof (Z.div_mod d Second ltac:(unfold Second; lia)) as Hdm.
  pose proof (Z.mod_pos_bound d Second ltac:(unfold Second; lia)) as Hmod.
  assert (Hdiv : 0 <= d / Second) by (apply Z.div_pos; unfold Second; lia).
  assert (Hdiv' : d / Second < 2 ^ 64).
  { apply Z.div_lt_upper_bound; unfold Second; lia. }
  unfold Second in *. set (sec := d / 1000000000) in *. set (nsec := d mod 1000000000) in *.
  assert (HdQ : (inject_Z d / 1000000000 == inject_Z sec + inject_Z nsec / 1000000000)%Q).
  { rewrite Hdm, inject_Z_plus, inject_Z_mult.
    change (inject_Z 1000000000) with 1000000000%Q. rewrite !per_second. ring. }
  clearbody sec nsec. rewrite f64_of_Z_nanoseconds.
  pose proof rounding_factor_pos as Hrf.
  set (G := S754_finite false 8388608000000000 (-23)) in *.
  assert (HF : 0 < nsec ->
               normal_float (-82) (-16) (f64_div (f64_of_Z nsec) G) /\
               near (rounding_factor * rounding_factor)
                    (float_value (f64_div (f64_of_Z nsec) G)) (inject_Z nsec / 1000000000)).
  { intros Hn. destruct (f64_of_Z_near nsec ltac:(lia)) as [HNn HNv].
    destruct (f64_div_near (-52) 12 (-23) (-23) (f64_of_Z nsec) G HNn
                f64_of_Z_nanoseconds_normal ltac:(lia) ltac:(lia)) as [HFn HFv].
    split; [exact HFn|].
    pose proof (near_trans rounding_factor rounding_factor _ _ _ ltac:(lra) ltac:(lra) HFv HNv) as H.
    subst G. rewrite f64_of_Z_nanoseconds_value in H. rewrite per_second.
    destruct H as [H1 H2]. split; lra. }
  assert (HS : 0 < sec -> rounded (-52) 12 (f64_of_Z sec) (inject_Z sec)).
  { intros Hs. apply f64_of_Z_near. lia. }
  assert (Hc2 : (0 <= rounding_factor * rounding_factor)%Q) by nra.
  assert (Hc12 : (rounding_factor <= rounding_factor * rounding_factor)%Q) by nra.
  assert (Hc23 : (rounding_factor * rounding_factor <=
                  rounding_factor * rounding_factor * rounding_factor)%Q) by nra.
  destruct (Z.eq_dec sec 0) as [Hs0|Hs0]; [|destruct (Z.eq_dec nsec 0) as [Hn0|Hn0]].
  - subst sec. destruct (HF ltac:(lia)) as [HFn HFv].
    pose proof (normal_float_value _ _ _ HFn) as HFp.
    destruct HFn as (m & e & HFe & Hm & He). rewrite HFe in *.
    change (f64_add (f64_of_Z 0) (S754_finite false m e)) with (S754_finite false m e).
    split; [exists m, e; split; [reflexivity|split; [assumption|lia]]|].
    rewrite HdQ. change (inject_Z 0) with 0%Q. rewrite Qplus_0_l.
    apply (near_weaken (rounding_factor * rounding_factor)); try assumption; try lra.
    assert (0 < inject_Z nsec)%Q by (apply inject_Z_pos; lia).
    rewrite per_second. lra.
  - subst nsec. destruct (HS ltac:(lia)) as [HSn HSv].
    pose proof (normal_float_value _ _ _ HSn) as HSp.
    destruct HSn as (m & e & HSe & Hm & He). rewrite HSe in *.
    change (f64_add (S754_finite false m e) (f64_div (f64_of_Z 0) G))
      with (S754_finite false m e).
    split; [exists m, e; split; [reflexivity|split; [assumption|lia]]|].
    rewrite HdQ.
    assert (E : (inject_Z 0 / 1000000000 == 0)%Q) by reflexivity.
    rewrite E, Qplus_0_r.
    assert (0 < inject_Z sec)%Q by (apply inject_Z_pos; lia).
    apply (near_weaken rounding_factor); try lra. exact HSv.
  - destruct (HS ltac:(lia)) as [HSn HSv]. destruct (HF ltac:(lia)) as [HFn HFv].
    pose proof (normal_float_value _ _ _ HSn) as HSp.
    pose proof (normal_float_value _ _ _ HFn) as HFp.
    assert (HsQ : (0 < inject_Z sec)%Q) by (apply inject_Z_pos; lia).
    assert (HnQ : (0 < inject_Z nsec / 1000000000)%Q).
    { pose proof (inject_Z_pos nsec ltac:(lia)). rewrite per_second. lra. }
    destruct (f64_add_near (-52) 12 (-82) (-16) _ _ HSn HFn
                ltac:(lia) ltac:(lia) ltac:(lia) ltac:(lia)) as [HPn HPv].
    split.
    + destruct HPn as (m & e & -> & Hm & He). exists m, e.
      split; [reflexivity|split; [assumption|lia]].
    + rewrite HdQ.
      rewrite <- Qmult_assoc.
      apply (near_trans rounding_factor _ _ _ _ ltac:(lra) Hc2 HPv).
      apply near_add; [|exact HFv].
      apply (near_weaken rounding_factor); try lra. exact HSv.
Qed.

Lemma Time_Sub_elapsed (prev rec : record) :
  timestamp prev < timestamp rec ->
  Time_Sub (timestamp rec) (timestamp prev) = elapsed prev rec /\
  0 < elapsed prev rec <= maxInt64.
Proof.
  intros H. unfold Time_Sub, elapsed, minInt64, maxInt64 in *.
  destruct (Z.ltb_spec (timestamp rec - timestamp prev) (- 2 ^ 63)); [lia|].
  destruct (Z.ltb_spec (2 ^ 63 - 1) (timestamp rec - timestamp prev)); lia.
Qed.

Lemma normal_float_tests (lo hi : Z) (x : float64) :
  normal_float lo hi x ->
  is_finite_float x = true /\ is_positive_float x = true /\ is_nonnegative_float x = true.
Proof. intros (m & e & -> & _). repeat split. Qed.

(** Within a factor of five roundings means within the tolerance. *)
Lemma near_within_tolerance (x v : Q) :
  (0 <= v)%Q ->
  near (rounding_factor * rounding_factor * rounding_factor * (rounding_factor * rounding_factor))
       x v ->
  (Qabs (x - v) <= float_tolerance * v)%Q.
Proof.
  intros Hv [H1 H2]. apply Qabs_diff_Qle_condition.
  unfold rounding_factor, float_tolerance in *. split; lra.
Qed.

Lemma near_quotient (c r p d : Q) : (0 < p)%Q -> near c (r * p) d -> near c r (d / p).
Proof.
  intros Hp [Ha Hb].
  assert (HT : (d / p * p == d)%Q) by (field; lra).
  set (T := (d / p)%Q) in *. rewrite <- HT in Ha, Hb. clearbody T.
  split; apply (Qmult_lt_0_le_reg_r _ _ p Hp); lra.
Qed.

(** The packet rate for a count that went up by [d] over a period of
    [ns] nanoseconds: two roundings away from [d] over the computed
    period, five from [d] over [ns / 10^9]. *)
Lemma pps_of_near (prev rec : record) :
  is_uint64 (rxPackets (total prev)) ->
  is_uint64 (rxPackets (total rec)) ->
  rxPackets (total prev) < rxPackets (total rec) ->
  timestamp prev < timestamp rec ->
  normal_float (-119) 43 (pps_of prev rec) /\
  near (rounding_factor * rounding_factor)
       (float_value (pps_of prev rec))
       (inject_Z (rxPackets (total rec) - rxPackets (total prev)) /
        float_value (period_of prev rec)) /\
  near (rounding_factor * rounding_factor * rounding_factor * (rounding_factor * rounding_factor))
       (float_value (pps_of prev rec))
       (exact_rate (rxPackets (total rec) - rxPackets (total prev)) (elapsed prev rec)).
Proof.
  intros Hp Hr Hlt Ht. unfold pps_of, period_of, float64_of_int.
  destruct (Time_Sub_elapsed prev rec Ht) as [-> Hns].
  rewrite sub64_no_wrap by (assumption || lia).
  set (d := rxPackets (total rec) - rxPackets (total prev)).
  set (ns := elapsed prev rec) in *.
  assert (Hd : 0 < d < 2 ^ 64) by (unfold is_uint64, uint64_mod in *; subst d; lia).
  clearbody d ns.
  destruct (Duration_Seconds_near ns Hns) as [HPn HPv].
  destruct (f64_of_Z_near d Hd) as [HAn HAv].
  destruct (f64_div_near (-52) 12 (-82) 14 _ _ HAn HPn ltac:(lia) ltac:(lia)) as [HRn HRv].
  split; [destruct HRn as (m & e & -> & Hm & He); exists m, e;
          split; [reflexivity|split; [assumption|lia]]|].
  pose proof (normal_float_value _ _ _ HRn) as HR.
  pose proof (normal_float_value _ _ _ HPn) as HP.
  pose proof rounding_factor_pos as Hrf.
  set (R := float_value (f64_div (f64_of_Z d) (Duration_Seconds ns))) in *.
  set (P := float_value (Duration_Seconds ns)) in *.
  set (A := float_value (f64_of_Z d)) in *.
  assert (Hc2 : (0 <= rounding_factor * rounding_factor)%Q) by nra.
  assert (Hc3 : (0 <= rounding_factor * rounding_factor * rounding_factor)%Q) by nra.
  pose proof (near_trans rounding_factor rounding_factor _ _ _ ltac:(lra) ltac:(lra) HRv HAv)
    as H1.
  split; [apply near_quotient; assumption|].
  pose proof (near_sym _ _ _ (near_scale _ R _ _ ltac:(lra) HPv)) as H2.
  pose proof (near_trans _ _ _ _ _ Hc3 Hc2 H2 H1) as H3.
  unfold exact_rate. rewrite per_second in *.
  assert (Hns' : (0 < inject_Z ns)%Q) by (apply inject_Z_pos; lia).
  apply near_quotient; [lra|].
  exact H3.
Qed.

Lemma exact_rate_zero (ns : Z) : (exact_rate 0 ns == 0)%Q.
Proof. unfold exact_rate, Qdiv. change (inject_Z 0) with 0%Q. ring. Qed.

Lemma exact_rate_pos (d ns : Z) : 0 < d -> 0 < ns -> (0 < exact_rate d ns)%Q.
Proof.
  intros Hd Hns. unfold exact_rate. rewrite per_second.
  pose proof (inject_Z_pos d Hd). pose proof (inject_Z_pos ns Hns).
  apply Qlt_shift_div_l; [lra|]. rewrite Qmult_0_l. assumption.
Qed.

(** C6 (as claimed, refuted): from (t=0, 100 packets, 1000 bytes) to
    (t=1s, 150 packets, 2000 bytes) the bit rate is 8 Kbit/s, but the
    text rendered for it is not 8 Kbits/s: the number is right-aligned
    in six characters. *)
Lemma rate_of_8_Kbits_is_padded :
  let prev := Record_ 0 (Datarec 100 1000) in
  let rec := Record_ Second (Datarec 150 2000) in
  kbps_of (bytes_of prev rec) (period_of prev rec) = f64_of_Z 8 /\
  BPs (calcStat prev rec) = "     8 Kbits/s"%string /\
  BPs (calcStat prev rec) <> "8 Kbits/s"%string.
Proof. vm_compute. repeat split; discriminate. Qed.

(** C6 (amended): take two snapshots of one slot whose packet count did
    not go down, d being the difference, and whose timestamps advance,
    ns being the nanoseconds elapsed between them.  The period is a
    positive finite float64 within a relative error of 2^-49 of
    ns / 10^9.  The packet rate is a finite float64, not negative,
    within a relative error of 2^-49 both of d over the computed period
    and of d / (ns / 10^9); it is exactly zero when d is zero, and it is
    the number the rate cell shows.  From (t=0, 100 packets, 1000 bytes)
    to (t=1s, 150 packets, 2000 bytes) the period is exactly 1, the rate
    exactly 50 packets per second, and the 8000 bits over one second
    give 8 Kbit/s, rendered with the number right-aligned in six
    characters. *)
Theorem pps_is_delta_over_period (prev rec : record) :
  is_uint64 (rxPackets (total prev)) ->
  is_uint64 (rxPackets (total rec)) ->
  rxPackets (total prev) <= rxPackets (total rec) ->
  timestamp prev < timestamp rec ->
  let d := rxPackets (total rec) - rxPackets (total prev) in
  let ns := elapsed prev rec in
  let period := float_value (period_of prev rec) in
  let pps := float_value (pps_of prev rec) in
  (is_finite_float (period_of prev rec) = true /\
   is_positive_float (period_of prev rec) = true /\
   (Qabs (period - inject_Z ns / 1000000000)
    <= float_tolerance * (inject_Z ns / 1000000000))%Q) /\
  (is_finite_float (pps_of prev rec) = true /\
   is_nonnegative_float (pps_of prev rec) = true /\
   (Qabs (pps - inject_Z d / period) <= float_tolerance * (inject_Z d / period))%Q /\
   (Qabs (pps - exact_rate d ns) <= float_tolerance * exact_rate d ns)%Q) /\
  (d = 0 -> pps_of prev rec = f64_zero) /\
  PPs (calcStat prev rec) = (Sprintf_f 10 0 (pps_of prev rec) ++ " pps")%string /\
  (let prev1 := Record_ 0 (Datarec 100 1000) in
   let rec1 := Record_ Second (Datarec 150 2000) in
   elapsed prev1 rec1 = Second /\
   period_of prev1 rec1 = f64_of_Z 1 /\
   pps_of prev1 rec1 = f64_of_Z 50 /\
   PPs (calcStat prev1 rec1) = "        50 pps"%string /\
   f64_mul (bytes_of prev1 rec1) (f64_of_Z 8) = f64_of_Z 8000 /\
   kbps_of (bytes_of prev1 rec1) (period_of prev1 rec1) = f64_of_Z 8 /\
   BPs (calcStat prev1 rec1) = "     8 Kbits/s"%string).
Proof.
  intros Hp Hr Hle Ht d ns period pps.
  pose proof rounding_factor_pos as Hrf.
  destruct (Time_Sub_elapsed prev rec Ht) as [HTS Hns]. fold ns in HTS, Hns.
  assert (HP : normal_float (-82) 14 (period_of prev rec) /\
               near (rounding_factor * rounding_factor * rounding_factor)
                    period (inject_Z ns / 1000000000)).
  { subst period. unfold period_of. rewrite HTS.
    apply Duration_Seconds_near. assumption. }
  destruct HP as [HPn HPv].
  destruct (normal_float_tests _ _ _ HPn) as (HPf & HPp & _).
  pose proof (normal_float_value _ _ _ HPn) as HPpos. fold period in HPpos.
  assert (HnsQ : (0 < inject_Z ns / 1000000000)%Q).
  { pose proof (inject_Z_pos ns ltac:(lia)). rewrite per_second. lra. }
  assert (Hc2 : (1 <= rounding_factor * rounding_factor)%Q) by nra.
  assert (Hc3 : (1 <= rounding_factor * rounding_factor * rounding_factor)%Q) by nra.
  assert (Hz : d = 0 -> pps_of prev rec = f64_zero).
  { intros Hd0. unfold pps_of, float64_of_int. rewrite sub64_no_wrap by assumption.
    fold d. rewrite Hd0, f64_of_Z_zero. now apply f64_div_zero_by_positive. }
  split; [|split; [|split; [|split]]].
  - split; [assumption|]. split; [assumption|].
    apply near_within_tolerance; [lra|].
    apply (near_weaken (rounding_factor * rounding_factor * rounding_factor));
      try lra; [|assumption].
    nra.
  - destruct (Z.eq_dec d 0) as [Hd0|Hd0].
    + subst pps. rewrite (Hz Hd0), Hd0. split; [reflexivity|]. split; [reflexivity|].
      assert (E : (inject_Z 0 / period == 0)%Q)
        by (unfold Qdiv; change (inject_Z 0) with 0%Q; ring).
      rewrite exact_rate_zero, E. cbn [float_value f64_zero].
      split; compute; discriminate.
    + destruct (pps_of_near prev rec Hp Hr ltac:(subst d; lia) Ht) as (HRn & HRp & HRv).
      destruct (normal_float_tests _ _ _ HRn) as (HRf & _ & HRnn).
      pose proof (normal_float_value _ _ _ HRn) as HRpos.
      fold d period pps in HRp, HRpos. fold d ns pps in HRv.
      assert (HdQ : (0 < inject_Z d)%Q) by (apply inject_Z_pos; subst d; lia).
      assert (Hq : (0 < inject_Z d / period)%Q).
      { apply Qlt_shift_div_l; [assumption|]. rewrite Qmult_0_l. assumption. }
      split; [assumption|]. split; [assumption|]. split.
      * apply near_within_tolerance; [lra|].
        apply (near_weaken (rounding_factor * rounding_factor)); try lra; [|assumption].
        nra.
      * apply near_within_tolerance; [|exact HRv].
        apply Qlt_le_weak, exact_rate_pos; subst d; lia.
  - exact Hz.
  - reflexivity.
  - vm_compute. repeat split.
Qed.

Lemma pps_is_delta_over_period_witness :
  (Qabs (float_value (pps_of (Record_ (5 * Second) (Datarec 100 1000))
                             (Record_ (8 * Second + 1) (Datarec 107 2000)))
         - exact_rate 7 3000000001)
   <= float_tolerance * exact_rate 7 3000000001)%Q /\
  pps_of (Record_ (5 * Second) (Datarec 100 1000))
         (Record_ (6 * Second) (Datarec 100 2000)) = f64_zero.
Proof.
  split.
  - apply (pps_is_delta_over_period (Record_ (5 * Second) (Datarec 100 1000))
                                    (Record_ (8 * Second + 1) (Datarec 107 2000)));
      cbn; unfold is_uint64, uint64_mod, Second; lia.
  - apply (pps_is_delta_over_period (Record_ (5 * Second) (Datarec 100 1000))
                                    (Record_ (6 * Second) (Datarec 100 2000)));
      cbn; unfold is_uint64, uint64_mod, Second; lia.
Defined.
